(** * Feature-flag evaluation core: store, evaluator, client entry points,
      streaming processor.

    A shallow embedding of

    - [feature_store.js]  (the in-memory store),
    - [evaluate_flag.js]  (the evaluation engine and the bucketing hash),
    - [index.js]          (the client's [variation] / [variationDetail]),
    - [streaming.js]      (the server-sent-events update processor),

    followed by the properties established about them.

    Conventions of the embedding.

    - A JS string is a Rocq [string], read as its UTF-8 bytes.
    - A JS object used as a dictionary is a [gmap string _] of its own
      properties. The store reads a dictionary only behind
      [hasOwnProperty]; an assignment to ['__proto__'] that finds no own
      property of that name runs the setter of [Object.prototype] and
      creates none, which is written out where the code assigns. The
      store's data is read by the namespace of a kind, ['features'] or
      ['segments'] for the kinds the SDK defines: a namespace is taken
      not to name a property of [Object.prototype].
    - A field the code tests for presence is an [option]; [None] stands
      for a property that is absent, [undefined] or [null]. Where the code
      tells [null] from [undefined] (a key or salt that is formatted, an
      id that is compared with [===]) the field is a [Js.nullable].
      [flag.variations], which the code reads without a test, is an
      [option] whose absence makes the read throw; [clause.values] is
      taken to be there.
    - A number is an IEEE 754 double. An integer field holds the integer a
      double denotes; weights, their quotients and running sums are
      doubles, rounded to nearest (ties to even) at every operation.
    - A thrown JS exception is the [Throw] outcome of the [result] monad. *)

From Stdlib Require Import ZArith QArith Qabs String Ascii List Lia Bool DecimalString.
From stdpp Require Import gmap strings list.

Set Warnings "-register-all".

Local Open Scope string_scope.
Local Open Scope Z_scope.

(* ===================================================================== *)
(** ** SHA-1 (what [crypto.createHash('sha1')] computes)                  *)
(* ===================================================================== *)

(** [crypto] is Node's binding to the standard hash functions; the digest
    is defined here after FIPS 180-4, on 32-bit words held in [Z] with the
    wrap-around written out. *)
Module Sha1.

Definition w32 (x : Z) : Z := Z.land x 0xffffffff.

Definition add32 (x y : Z) : Z := w32 (x + y).

Definition rotl (n x : Z) : Z :=
  w32 (Z.lor (Z.shiftl x n) (Z.shiftr x (32 - n))).

Definition not32 (x : Z) : Z := Z.lxor x 0xffffffff.

(** Message bytes as numbers in [0, 256). *)
Definition bytes_of_string (s : string) : list Z :=
  map (fun c => Z.of_N (N_of_ascii c)) (list_ascii_of_string s).

(** Big-endian encoding of [x] on [n] bytes. *)
Fixpoint be_bytes (n : nat) (x : Z) : list Z :=
  match n with
  | O => []
  | S n' => Z.land (Z.shiftr x (8 * Z.of_nat n')) 0xff :: be_bytes n' x
  end.

(** Padding: one 0x80 byte, zero bytes up to 56 mod 64, then the bit
    length on 8 bytes. *)
Definition pad (msg : list Z) : list Z :=
  let len := Z.of_nat (length msg) in
  let zeros := Z.to_nat ((55 - len) mod 64) in
  msg ++ [0x80] ++ repeat 0 zeros ++ be_bytes 8 (8 * len).

Fixpoint be_word (bs : list Z) : Z :=
  match bs with
  | [] => 0
  | b :: bs' => Z.lor (Z.shiftl b (8 * Z.of_nat (length bs'))) (be_word bs')
  end.

(** Cut a byte list into big-endian 32-bit words. *)
Fixpoint words (fuel : nat) (bs : list Z) : list Z :=
  match fuel, bs with
  | S fuel', b0 :: b1 :: b2 :: b3 :: rest =>
      be_word [b0; b1; b2; b3] :: words fuel' rest
  | _, _ => []
  end.

(** Cut a word list into blocks of sixteen words. *)
Fixpoint blocks (fuel : nat) (ws : list Z) : list (list Z) :=
  match fuel, ws with
  | S fuel', _ :: _ => take 16 ws :: blocks fuel' (drop 16 ws)
  | _, _ => []
  end.

Definition f_round (t : nat) (b c d : Z) : Z :=
  if (t <? 20)%nat then Z.lor (Z.land b c) (Z.land (not32 b) d)
  else if (t <? 40)%nat then Z.lxor (Z.lxor b c) d
  else if (t <? 60)%nat
       then Z.lor (Z.lor (Z.land b c) (Z.land b d)) (Z.land c d)
  else Z.lxor (Z.lxor b c) d.

Definition k_round (t : nat) : Z :=
  if (t <? 20)%nat then 0x5a827999
  else if (t <? 40)%nat then 0x6ed9eba1
  else if (t <? 60)%nat then 0x8f1bbcdc
  else 0xca62c1d6.

Record regs := Regs { ra : Z; rb : Z; rc : Z; rd : Z; re : Z }.

(** The message schedule is kept as a sliding window of sixteen words:
    the head is [W t], and [W (t+16)] is appended when the head leaves. *)
Definition next_window (w : list Z) : list Z :=
  let x := Z.lxor (Z.lxor (Z.lxor (nth 13 w 0) (nth 8 w 0)) (nth 2 w 0))
                  (nth 0 w 0) in
  drop 1 w ++ [rotl 1 x].

Definition step (t : nat) (w : list Z) (r : regs) : regs :=
  let temp :=
    add32 (add32 (add32 (add32 (rotl 5 (ra r)) (f_round t (rb r) (rc r) (rd r)))
                        (re r)) (k_round t)) (nth 0 w 0) in
  Regs temp (ra r) (rotl 30 (rb r)) (rc r) (rd r).

Fixpoint rounds (n : nat) (t : nat) (w : list Z) (r : regs) : regs :=
  match n with
  | O => r
  | S n' => rounds n' (S t) (next_window w) (step t w r)
  end.

Definition compress (h : regs) (block : list Z) : regs :=
  let r := rounds 80 0 block h in
  Regs (add32 (ra h) (ra r)) (add32 (rb h) (rb r)) (add32 (rc h) (rc r))
       (add32 (rd h) (rd r)) (add32 (re h) (re r)).

Definition init : regs :=
  Regs 0x67452301 0xefcdab89 0x98badcfe 0x10325476 0xc3d2e1f0.

Definition digest_words (msg : list Z) : list Z :=
  let p := pad msg in
  let h := fold_left compress (blocks (length p) (words (length p) p)) init in
  [ra h; rb h; rc h; rd h; re h].

Definition hex_digit (x : Z) : ascii :=
  if x <? 10 then ascii_of_N (Z.to_N (48 + x))
  else ascii_of_N (Z.to_N (87 + x)).

(** Eight lower-case hexadecimal digits of a 32-bit word. *)
Definition hex_word (x : Z) : list ascii :=
  map (fun i => hex_digit (Z.land (Z.shiftr x (4 * Z.of_nat i)) 0xf))
      [7; 6; 5; 4; 3; 2; 1; 0]%nat.

(** [hash.update(input); hash.digest('hex')] *)
Definition hex (input : string) : string :=
  string_of_list_ascii
    (concat (map hex_word (digest_words (bytes_of_string input)))).

End Sha1.

(* ===================================================================== *)
(** ** Doubles                                                            *)
(* ===================================================================== *)

(** IEEE 754 binary64 arithmetic, as far as the code uses it: division,
    addition and comparison. A finite double is the rational it denotes
    (the sign of zero is not kept: no operation here tells [-0] from
    [0]). *)
Module F64.

Inductive t : Type :=
| Finite (q : Q)
| Inf (negative : bool)
| NaN.

(** The integer [e] with [2^e <= a/b < 2^(e+1)], for [a, b > 0]. *)
Definition ilog2 (a b : Z) : Z :=
  let e := Z.log2 a - Z.log2 b in
  if (if 0 <=? e then b * 2 ^ e <=? a else b <=? a * 2 ^ (- e)) then e else e - 1.

(** The integer nearest to [N/D], the even one of two. *)
Definition nearest_even (N D : Z) : Z :=
  let n := N / D in
  let r := N mod D in
  if 2 * r <? D then n
  else if D <? 2 * r then n + 1
  else if Z.even n then n else n + 1.

(** The double nearest to [a/b], for [a, b > 0]: 53 bits of significand
    at the exponent of [a/b], which is not below that of the subnormal
    numbers; what rounds to [2^1024] or more is infinite. *)
Definition round_pos (a b : Z) : t :=
  let e := Z.max (ilog2 a b) (-1022) in
  let k := 52 - e in
  let n := if 0 <=? k then nearest_even (a * 2 ^ k) b
           else nearest_even a (b * 2 ^ (- k)) in
  if (1024 <=? e) || ((e =? 1023) && (n =? 2 ^ 53)) then Inf false
  else Finite (Qred (if 0 <=? k then n # Z.to_pos (2 ^ k)
                     else inject_Z (n * 2 ^ (- k)))).

Definition opp (x : t) : t :=
  match x with
  | Finite q => Finite (- q)
  | Inf s => Inf (negb s)
  | NaN => NaN
  end.

(** The double nearest to a rational. *)
Definition round (q : Q) : t :=
  match Qnum q with
  | 0 => Finite 0
  | Zpos a => round_pos (Zpos a) (Zpos (Qden q))
  | Zneg a => opp (round_pos (Zpos a) (Zpos (Qden q)))
  end.

(** The double an integer literal denotes. *)
Definition of_Z (z : Z) : t := round (inject_Z z).

(** [x + y] *)
Definition add (x y : t) : t :=
  match x, y with
  | Finite a, Finite b => round (a + b)
  | NaN, _ | _, NaN => NaN
  | Inf s, Finite _ | Finite _, Inf s => Inf s
  | Inf s, Inf s' => if Bool.eqb s s' then Inf s else NaN
  end.

Definition negative (q : Q) : bool := Qnum q <? 0.

(** [x / y] *)
Definition div (x y : t) : t :=
  match x, y with
  | NaN, _ | _, NaN => NaN
  | Finite a, Finite b =>
      if Qeq_bool b 0 then
        if Qeq_bool a 0 then NaN else Inf (negative a)
      else round (a / b)
  | Finite _, Inf _ => Finite 0
  | Inf s, Finite b => Inf (xorb s (negative b))
  | Inf _, Inf _ => NaN
  end.

(** [x < y] *)
Definition ltb (x y : t) : bool :=
  match x, y with
  | NaN, _ | _, NaN => false
  | Finite a, Finite b => negb (Qle_bool b a)
  | Finite _, Inf s => negb s
  | Inf s, Finite _ => s
  | Inf s, Inf s' => s && negb s'
  end.

End F64.

(* ===================================================================== *)
(** ** JavaScript values                                                  *)
(* ===================================================================== *)

Module Js.

(** JSON-shaped values. A number whose value is an integer is [Num];
    any other number is [Float], carried by its canonical rendering
    (what [String(x)] returns, e.g. ["33.5"]). *)
Inductive value : Type :=
| Null
| Undefined
| Bool (b : bool)
| Num (z : Z)
| Float (repr : string)
| Str (s : string)
| Arr (elems : list value)
| Obj (fields : list (string * value)).

Inductive exn : Type :=
| TypeError (msg : string)
| RangeError (msg : string).

(** Outcome of a call that may throw. *)
Inductive result (A : Type) : Type :=
| Ok (a : A)
| Throw (e : exn).
Arguments Ok {A} a.
Arguments Throw {A} e.

Definition bind {A B} (r : result A) (k : A -> result B) : result B :=
  match r with
  | Ok a => k a
  | Throw e => Throw e
  end.

(** Truthiness, as tested by [if (x)], [!x], [x || y]. *)
Definition truthy (v : value) : bool :=
  match v with
  | Null | Undefined => false
  | Bool b => b
  | Num z => negb (z =? 0)
  | Float _ => true
  | Str s => negb (String.eqb s EmptyString)
  | Arr _ | Obj _ => true
  end.

(** [x === null || x === undefined] *)
Definition nullish (v : value) : bool :=
  match v with
  | Null | Undefined => true
  | _ => false
  end.

(** The decimal digits of an integer. *)
Definition decimal (z : Z) : string := NilZero.string_of_int (Z.to_int z).

(** The double nearest to the integer [z], as an integer, when finite. *)
Definition double_of_Z (z : Z) : option Z :=
  match F64.of_Z z with
  | F64.Finite q => Some (Qnum q / Zpos (Qden q))
  | _ => None
  end.

(** Number::toString, step 5: the integer with the fewest significant
    digits that denotes the double [v > 0], and of two such the one
    nearer to [v]. [p] is the power of ten of the digit tried first. *)
Fixpoint shortest (fuel : nat) (p : Z) (v : Z) : Z :=
  match fuel with
  | O => v
  | S fuel' =>
      let lo := v / p * p in
      let hi := lo + p in
      let denotes c :=
        match double_of_Z c with Some d => d =? v | None => false end in
      match denotes lo, denotes hi with
      | true, true => if v - lo <=? hi - v then lo else hi
      | true, false => lo
      | false, true => hi
      | false, false => shortest fuel' (p / 10) v
      end
  end.

Fixpoint strip_zeros (fuel : nat) (c : Z) : Z :=
  match fuel with
  | O => c
  | S fuel' => if c mod 10 =? 0 then strip_zeros fuel' (c / 10) else c
  end.

(** [String(v)] for a double [v > 0] that is an integer: its shortest
    digits, followed by zeros below [10^21] and in exponent notation from
    there on. *)
Definition string_of_pos (v : Z) : string :=
  let n := String.length (decimal v) in
  let c := shortest n (10 ^ (Z.of_nat n - 1)) v in
  if c <? 10 ^ 21 then decimal c
  else
    let e := Z.of_nat (String.length (decimal c)) - 1 in
    match decimal (strip_zeros (String.length (decimal c)) c) with
    | String d EmptyString => String d ("e+" ++ decimal e)
    | String d rest => String d ("." ++ rest ++ "e+" ++ decimal e)
    | EmptyString => EmptyString
    end.

(** [String(n)], also ['' + n], of the number the integer literal [z]
    denotes. *)
Definition string_of_Z (z : Z) : string :=
  match F64.of_Z z with
  | F64.Finite q =>
      let v := Qnum q / Zpos (Qden q) in
      if v =? 0 then "0"
      else if v <? 0 then "-" ++ string_of_pos (- v)
      else string_of_pos v
  | F64.Inf true => "-Infinity"
  | F64.Inf false => "Infinity"
  | F64.NaN => "NaN"
  end.

Fixpoint join (sep : string) (l : list string) : string :=
  match l with
  | [] => EmptyString
  | [x] => x
  | x :: rest => x ++ sep ++ join sep rest
  end.

(** [String(v)], also the conversion applied by ['.' + v] and by the use
    of [v] as a property name. *)
Fixpoint to_string (v : value) : string :=
  match v with
  | Null => "null"
  | Undefined => "undefined"
  | Bool true => "true"
  | Bool false => "false"
  | Num z => string_of_Z z
  | Float r => r
  | Str s => s
  | Arr l =>
      join "," (map (fun e => if nullish e then EmptyString else to_string e) l)
  | Obj _ => "[object Object]"
  end.

(** The one-character string holding a double quote. *)
Definition dquote : string := String (ascii_of_nat 34) EmptyString.

(** A string-valued property: absent (it reads as [undefined]), [null],
    or the string. *)
Inductive nullable (A : Type) : Type :=
| Absent
| IsNull
| Present (a : A).
Arguments Absent {A}.
Arguments IsNull {A}.
Arguments Present {A} a.

#[global] Instance nullable_eq_dec {A} `{EqDecision A} : EqDecision (nullable A).
Proof. solve_decision. Defined.

(** [util.format('%s', x)], which is also [String(x)] and the property
    name [x] is converted to. *)
Definition format_s (x : nullable string) : string :=
  match x with
  | Present s => s
  | IsNull => "null"
  | Absent => "undefined"
  end.

Definition hex_value (c : ascii) : option Z :=
  let n := Z.of_N (N_of_ascii c) in
  if (48 <=? n) && (n <=? 57) then Some (n - 48)
  else if (97 <=? n) && (n <=? 102) then Some (n - 87)
  else if (65 <=? n) && (n <=? 70) then Some (n - 55)
  else None.

(** Value of the longest prefix of hexadecimal digits, continuing [acc];
    [seen] tells whether a digit has been read. *)
Fixpoint parse_hex (s : string) (seen : bool) (acc : Z) : option Z :=
  match s with
  | EmptyString => if seen then Some acc else None
  | String c rest =>
      match hex_value c with
      | Some d => parse_hex rest true (16 * acc + d)
      | None => if seen then Some acc else None
      end
  end.

(** [parseInt(s, 16)] as a mathematical integer, for [s] without leading
    white space, sign or [0x]; [None] is [NaN]. *)
Definition parseInt16 (s : string) : option Z := parse_hex s false 0.

(** The double nearest to the integer [n >= 0] (ties to even), as the
    integer it denotes: 53 bits of significand are kept. *)
Definition number_of_Z (n : Z) : Z :=
  if n <? 2 ^ 53 then n
  else
    let e := Z.log2 n - 52 in
    let q := n / 2 ^ e in
    let r := n mod 2 ^ e in
    let half := 2 ^ (e - 1) in
    let q' := if r <? half then q
              else if half <? r then q + 1
              else if Z.even q then q else q + 1 in
    q' * 2 ^ e.

End Js.

Abbreviation jsval := Js.value.
Notation "'let*' x ':=' r 'in' k" := (Js.bind r (fun x => k))
  (at level 10, x name, r at level 100, k at level 200).

(* ===================================================================== *)
(** ** Data model: users, flags, segments                                 *)
(* ===================================================================== *)

(** A user object: its own top-level properties other than [custom], and
    the [custom] dictionary when there is one. *)
Record user := User {
  props : gmap string jsval;
  custom : option (gmap string jsval)
}.

Record clause := Clause {
  attribute : string;
  op : string;
  values : list jsval;
  negate : bool
}.

Record weightedVariation := WeightedVariation {
  wv_variation : Z;
  wv_weight : Z
}.

Record rollout := Rollout {
  ro_variations : option (list weightedVariation);
  ro_bucketBy : option string
}.

(** The two properties [variationForUser] reads of its argument [r],
    which is a flag's [fallthrough] or one of its rules. *)
Record variationOrRollout := VariationOrRollout {
  vr_variation : option Z;
  vr_rollout : option rollout
}.

(** A rule of a flag ([id], [clauses], [variation], [rollout]) or of a
    segment ([clauses], [weight], [bucketBy]); the properties a given rule
    does not have are [None]. *)
Record rule := Rule {
  rule_id : Js.nullable string;
  rule_clauses : option (list clause);
  rule_variation : option Z;
  rule_rollout : option rollout;
  rule_weight : option Z;
  rule_bucketBy : option string
}.

Definition rule_vr (r : rule) : variationOrRollout :=
  VariationOrRollout (rule_variation r) (rule_rollout r).

Record prerequisite := Prerequisite {
  prereq_key : string;
  prereq_variation : Z
}.

Record target := Target {
  target_variation : option Z;
  target_values : option (list string)
}.

(** A stored object, with the properties the code reads of a flag and of a
    segment. A tombstone is an item with only [version] and [deleted]. *)
Record item := Item {
  key : Js.nullable string;
  version : Z;
  deleted : bool;
  on : bool;
  variations : option (list jsval);
  offVariation : option Z;
  fallthrough : option variationOrRollout;
  prerequisites : option (list prerequisite);
  targets : option (list target);
  rules : option (list rule);
  salt : Js.nullable string;
  included : option (list string);
  excluded : option (list string)
}.

(** [{ key: k, version: v }] *)
Definition versioned (k : string) (v : Z) : item :=
  Item (Js.Present k) v false false None None None None None None Js.Absent
       None None.

(** What a dictionary of the store holds under a key: [null] or an object. *)
Inductive entry : Type :=
| Null
| Object (it : item).

(** Modelled from the spec: [versioned_data_kind.js] is not among the
    sources; section 3 gives the two kinds, their [namespace] and their
    [streamApiPath] prefix. *)
Module dataKind.
Record kind := Kind { namespace : string; streamApiPath : string }.
Definition features : kind := Kind "features" "/flags/".
Definition segments : kind := Kind "segments" "/segments/".
(** The kinds in the order [for (const k in dataKind)] visits them. *)
Definition all_kinds : list kind := [features; segments].
End dataKind.
Abbreviation kind := dataKind.kind.

(* ===================================================================== *)
(** ** feature_store.js: the in-memory store                              *)
(* ===================================================================== *)

Module InMemoryFeatureStore.

Record t := Store {
  allData : gmap string (gmap string entry);
  initCalled : bool
}.

(** [InMemoryFeatureStore()] *)
Definition new : t := Store ∅ false.

(** The property name an object is converted to when it is used as a
    key, as in [allData[kind]]. *)
Definition object_as_property_name : string := "[object Object]".

(** A property name read from [item.key]. *)
Definition property_name (k : Js.nullable string) : string := Js.format_s k.

(** [JSON.parse(JSON.stringify(obj))]: a structural copy, the identity
    on immutable values. *)
Definition clone (obj : item) : item := obj.

Definition get (s : t) (k : kind) (key : string) : option item :=
  let items := default ∅ (allData s !! dataKind.namespace k) in
  match items !! key with
  | Some (Object it) => if deleted it then None else Some it
  | Some Null => None
  | None => None
  end.

(** [obj[key] = v] for an object [v], where [obj] has no own property
    [key]: the property is created, unless [key] is ['__proto__']: that
    assignment runs the setter of [Object.prototype], which makes [v] the
    prototype of [obj] and creates no property. The prototype of a
    dictionary of the store is never read. *)
Definition create (items : gmap string entry) (key : string) (v : entry)
    : gmap string entry :=
  if String.eqb key "__proto__" then items else <[key := v]> items.

(** The object [all] returns: its own properties, and its prototype when
    that is no longer [Object.prototype]. *)
Record results := Results {
  own : gmap string item;
  prototype : option item
}.

Definition all (s : t) (k : kind) : results :=
  let items := default ∅ (allData s !! dataKind.namespace k) in
  let live :=
    omap (fun e => match e with
                   | Object it => if deleted it then None else Some it
                   | Null => None
                   end) items in
  (* results[key] = item, for every own key of items with a live item *)
  Results (base.delete "__proto__" live) (live !! "__proto__").

Definition init (s : t) (newData : gmap string (gmap string entry)) : t :=
  Store newData true.

(** [{ version: version, deleted: true }] *)
Definition deletedItem (v : Z) : item :=
  Item Js.Absent v true false None None None None None None Js.Absent None None.

Definition delete (s : t) (k : kind) (key : string) (v : Z) : t :=
  match allData s !! dataKind.namespace k with
  | Some items =>
      let items' :=
        match items !! key with
        | Some old =>
            match old with
            | Null => <[key := Object (deletedItem v)]> items
            | Object o =>
                if version o <? v then <[key := Object (deletedItem v)]> items
                else items
            end
        | None => create items key (Object (deletedItem v))
        end in
      Store (<[dataKind.namespace k := items']> (allData s)) (initCalled s)
  | None =>
      (* items = {}; allData[kind] = items; items[key] = deletedItem *)
      Store (<[object_as_property_name := create ∅ key (Object (deletedItem v))]>
               (allData s))
            (initCalled s)
  end.

Definition upsert (s : t) (k : kind) (it : item) : t :=
  let key := property_name (key it) in
  let items := default ∅ (allData s !! dataKind.namespace k) in
  let items' :=
    match items !! key with
    | Some old =>
        match old with
        | Object o =>
            if version o <? version it then <[key := Object (clone it)]> items
            else items
        | Null => items
        end
    | None => create items key (Object (clone it))
    end in
  Store (<[dataKind.namespace k := items']> (allData s)) (initCalled s).

Definition initialized (s : t) : bool := initCalled s.

Definition close (s : t) : t := s.

End InMemoryFeatureStore.

(* ===================================================================== *)
(** ** evaluate_flag.js: the evaluation engine                            *)
(* ===================================================================== *)

Module Evaluate.

Inductive reason : Type :=
| OFF
| FALLTHROUGH
| TARGET_MATCH
| RULE_MATCH (ruleId : Js.nullable string) (ruleIndex : option nat)
| PREREQUISITE_FAILED (prerequisiteKey : string)
| ERROR (errorKind : string).

Record detail := Detail {
  value : jsval;
  variationIndex : option Z;
  reason_of : reason
}.

(** [{ err, detail }]; [err] is the message of the [Error], if any. *)
Record outcome := Outcome {
  err : option string;
  detail_of : detail
}.

(** The methods of the event factory the engine and the client call.
    [event_factory.js] is not among the sources: the factory is an
    argument of [evaluate], and so it is here. *)
Record eventFactory (event : Type) := EventFactory {
  newEvalEvent : item -> user -> detail -> option jsval -> option item -> event;
  newDefaultEvent : item -> option user -> detail -> event;
  newUnknownFlagEvent : string -> option user -> detail -> event
}.
Arguments newEvalEvent {event}.
Arguments newDefaultEvent {event}.
Arguments newUnknownFlagEvent {event}.

Definition builtins : list string :=
  ["key"; "ip"; "country"; "email"; "firstName"; "lastName"; "avatar";
   "name"; "anonymous"].

Definition userAttrsToStringifyForEvaluation : list string :=
  ["key"; "secondary"].

(** [builtins.indexOf(attr) >= 0] *)
Definition is_builtin (attr : string) : bool :=
  existsb (String.eqb attr) builtins.

Definition errorResult (errorKind : string) : detail :=
  Detail Js.Null None (ERROR errorKind).

(** Modelled from the spec: [utils/stringifyAttrs.js] is not among the
    sources. Section 4.4: the user is rewritten so that the listed
    attributes, if numeric or boolean, are coerced to strings; everything
    else is left untouched. *)
Definition stringifyAttrs (u : user) (attrs : list string) : user :=
  User (fold_left
          (fun (m : gmap string jsval) attr =>
             match m !! attr with
             | Some (Js.Num z) => <[attr := Js.Str (Js.to_string (Js.Num z))]> m
             | Some (Js.Float r) => <[attr := Js.Str (Js.to_string (Js.Float r))]> m
             | Some (Js.Bool b) => <[attr := Js.Str (Js.to_string (Js.Bool b))]> m
             | _ => m
             end)
          attrs (props u))
       (custom u).

(** Fetch an attribute value from a user object. *)
Definition userValue (u : user) (attr : string) : jsval :=
  match (if is_builtin attr then props u !! attr else None) with
  | Some v => v
  | None =>
      match custom u with
      | Some c =>
          match c !! attr with
          | Some v => v
          | None => Js.Null
          end
      | None => Js.Null
      end
  end.

Definition bucketableStringValue (v : jsval) : option string :=
  match v with
  | Js.Str s => Some s
  | Js.Num z => Some (Js.string_of_Z z)
  | _ => None
  end.

Definition sha1Hex (input : string) : string := Sha1.hex input.

(** Compute a percentile for a user. The quotient of the two doubles is
    exact: the divisor is a power of two (see [number_of_Z_denominator]). *)
Definition bucketUser (u : user) (key : Js.nullable string) (attr : string)
    (salt : Js.nullable string) : Q :=
  match bucketableStringValue (userValue u attr) with
  | None => 0%Q
  | Some idHash =>
      let idHash :=
        match props u !! "secondary" with
        | Some sec =>
            if Js.truthy sec then idHash ++ "." ++ Js.to_string sec else idHash
        | None => idHash
        end in
      let hashKey := Js.format_s key ++ "." ++ Js.format_s salt ++ "." ++ idHash in
      match Js.parseInt16 (substring 0 15 (sha1Hex hashKey)) with
      | Some hashVal =>
          (inject_Z (Js.number_of_Z hashVal)
           / inject_Z (Js.number_of_Z 0xfffffffffffffff))%Q
      | None => 0%Q  (* NaN; a digest always parses, see [parseInt16_sha1Hex] *)
      end
  end.

Definition maybeNegate (c : clause) (b : bool) : bool :=
  if negate c then negb b else b.

Fixpoint matchAny (matchFn : jsval -> jsval -> bool) (v : jsval)
    (vs : list jsval) : bool :=
  match vs with
  | [] => false
  | x :: rest => if matchFn v x then true else matchAny matchFn v rest
  end.

(** [user.key === s] for a string [s]. *)
Definition user_key_is (u : user) (s : string) : bool :=
  match props u !! "key" with
  | Some (Js.Str k) => String.eqb k s
  | _ => false
  end.

(** [l.indexOf(user.key) >= 0] for a list of strings. *)
Definition includes_user_key (l : list string) (u : user) : bool :=
  existsb (user_key_is u) l.

Section Engine.

(** [operators.fn(op)]: the match function of an operator name.
    [operators.js] is not among the sources. *)
Variable operators_fn : string -> jsval -> jsval -> bool.

Definition clauseMatchUserNoSegments (c : clause) (u : user) : bool :=
  let uValue := userValue u (attribute c) in
  if Js.nullish uValue then false
  else
    let matchFn := operators_fn (op c) in
    match uValue with
    | Js.Arr elems =>
        maybeNegate c (existsb (fun x => matchAny matchFn x (values c)) elems)
    | _ => maybeNegate c (matchAny matchFn uValue (values c))
    end.

Definition segmentRuleMatchUser (r : rule) (u : user)
    (segmentKey salt : Js.nullable string) : bool :=
  if negb (forallb (fun c => clauseMatchUserNoSegments c u)
                   (default [] (rule_clauses r)))
  then false
  else
    match rule_weight r with
    | None => true
    | Some w =>
        let bucketBy :=
          match rule_bucketBy r with
          | Some b => if String.eqb b EmptyString then "key" else b
          | None => "key"
          end in
        let bucket := bucketUser u segmentKey bucketBy salt in
        let weight := F64.div (F64.of_Z w) (F64.of_Z 100000) in
        F64.ltb (F64.Finite bucket) weight
    end.

Definition segmentMatchUser (segment : item) (u : user) : bool :=
  if Js.truthy (default Js.Undefined (props u !! "key")) then
    if includes_user_key (default [] (included segment)) u then true
    else if includes_user_key (default [] (excluded segment)) u then false
    else existsb (fun r => segmentRuleMatchUser r u (key segment) (salt segment))
                 (default [] (rules segment))
  else false.

Definition clauseMatchUser (c : clause) (u : user)
    (featureStore : InMemoryFeatureStore.t) : bool :=
  if String.eqb (op c) "segmentMatch" then
    maybeNegate c
      (existsb
         (fun v =>
            match InMemoryFeatureStore.get featureStore dataKind.segments
                    (Js.to_string v) with
            | Some segment => segmentMatchUser segment u
            | None => false
            end)
         (values c))
  else clauseMatchUserNoSegments c u.

(** The loop of [ruleMatchUser] over [r.clauses]. *)
Fixpoint allClausesMatch (cs : list clause) (u : user)
    (featureStore : InMemoryFeatureStore.t) : bool :=
  match cs with
  | [] => true
  | c :: rest =>
      if negb (clauseMatchUser c u featureStore) then false
      else allClausesMatch rest u featureStore
  end.

Definition ruleMatchUser (r : rule) (u : user)
    (featureStore : InMemoryFeatureStore.t) : bool :=
  match rule_clauses r with
  | None => false
  | Some cs => allClausesMatch cs u featureStore
  end.

Definition invalidVariation : outcome :=
  Outcome (Some "Invalid variation index in flag") (errorResult "MALFORMED_FLAG").

(** The test reads [flag.variations.length] last, and only for an index
    that is there and not negative: without [flag.variations] that read
    throws. *)
Definition getVariation (flag : item) (index : option Z) (r : reason)
    : Js.result outcome :=
  match index with
  | None => Js.Ok invalidVariation
  | Some i =>
      if i <? 0 then Js.Ok invalidVariation
      else
        match variations flag with
        | None =>
            Js.Throw (Js.TypeError "Cannot read property 'length' of undefined")
        | Some vs =>
            if Z.of_nat (length vs) <=? i then Js.Ok invalidVariation
            else
              Js.Ok (Outcome None
                       (Detail (nth (Z.to_nat i) vs Js.Undefined) (Some i) r))
        end
  end.

Definition getOffResult (flag : item) (r : reason) : Js.result outcome :=
  match offVariation flag with
  | None => Js.Ok (Outcome None (Detail Js.Null None r))
  | Some i => getVariation flag (Some i) r
  end.

(** The loop of [variationForUser] over the rollout's variations:
    [sum] is the running total before [vs]. *)
Fixpoint firstBucket (bucket : Q) (sum : F64.t) (vs : list weightedVariation)
    : option Z :=
  match vs with
  | [] => None
  | variate :: rest =>
      let sum :=
        F64.add sum (F64.div (F64.of_Z (wv_weight variate)) (F64.of_Z 100000)) in
      if F64.ltb (F64.Finite bucket) sum then Some (wv_variation variate)
      else firstBucket bucket sum rest
  end.

(** Given a variation or rollout [r], select the variation for the
    given user; [None] is the [null] the code returns. *)
Definition variationForUser (r : variationOrRollout) (u : user)
    (flag : item) : option Z :=
  match vr_variation r with
  | Some v => Some v
  | None =>
      match vr_rollout r with
      | Some ro =>
          match ro_variations ro with
          | Some (w0 :: ws) =>
              let vs := w0 :: ws in
              let bucketBy :=
                match ro_bucketBy ro with
                | Some b => if String.eqb b EmptyString then "key" else b
                | None => "key"
                end in
              let bucket := bucketUser u (key flag) bucketBy (salt flag) in
              match firstBucket bucket (F64.Finite 0) vs with
              | Some v => Some v
              | None => Some (wv_variation (List.last vs w0))
              end
          | _ => None
          end
      | None => None
      end
  end.

Definition getResultForVariationOrRollout (r : option variationOrRollout)
    (u : user) (flag : item) (rs : reason) : Js.result outcome :=
  match r with
  | None =>
      Js.Ok (Outcome (Some "Fallthrough variation undefined")
                     (errorResult "MALFORMED_FLAG"))
  | Some r =>
      match variationForUser r u flag with
      | None =>
          Js.Ok (Outcome
                   (Some "Variation/rollout object with no variation or rollout")
                   (errorResult "MALFORMED_FLAG"))
      | Some index => getVariation flag (Some index) rs
      end
  end.

(** The first [i] with [flag.rules[i].id === id]. *)
Fixpoint ruleIndexOf (id : Js.nullable string) (rs : list rule) (i : nat)
    : option nat :=
  match rs with
  | [] => None
  | r :: rest =>
      if bool_decide (rule_id r = id) then Some i
      else ruleIndexOf id rest (S i)
  end.

(** The loop of [evalRules] over the targets. *)
Fixpoint firstTarget (ts : list target) (u : user) : option target :=
  match ts with
  | [] => None
  | t :: rest =>
      match target_values t with
      | None => firstTarget rest u
      | Some vs =>
          if includes_user_key vs u then Some t else firstTarget rest u
      end
  end.

(** The loop of [evalRules] over the rules. *)
Fixpoint firstRule (rs : list rule) (u : user)
    (featureStore : InMemoryFeatureStore.t) : option rule :=
  match rs with
  | [] => None
  | r :: rest =>
      if ruleMatchUser r u featureStore then Some r
      else firstRule rest u featureStore
  end.

Definition evalRules (flag : item) (u : user)
    (featureStore : InMemoryFeatureStore.t) : Js.result outcome :=
  match firstTarget (default [] (targets flag)) u with
  | Some t => getVariation flag (target_variation t) TARGET_MATCH
  | None =>
      match firstRule (default [] (rules flag)) u featureStore with
      | Some r =>
          let rs := RULE_MATCH (rule_id r)
                      (ruleIndexOf (rule_id r) (default [] (rules flag)) 0) in
          getResultForVariationOrRollout (Some (rule_vr r)) u flag rs
      | None =>
          getResultForVariationOrRollout (fallthrough flag) u flag FALLTHROUGH
      end
  end.

Section Events.

Context {event : Type}.
Variable factory : eventFactory event.

(** The loop of [checkPrerequisites]; [evalInternal] is the recursive
    call. The result is [None] for [{ err: null, detail: null }] and
    [Some (err, reason)] when a prerequisite failed; the events pushed
    so far come with it. *)
Fixpoint checkPrerequisitesLoop
    (evalInternal : item -> list event -> Js.result (outcome * list event))
    (ps : list prerequisite) (flag : item) (u : user)
    (featureStore : InMemoryFeatureStore.t) (events : list event)
    : Js.result (option (option string * reason) * list event) :=
  match ps with
  | [] => Js.Ok (None, events)
  | prereq :: rest =>
      match InMemoryFeatureStore.get featureStore dataKind.features
              (prereq_key prereq) with
      | None =>
          Js.Ok (Some (Some ("Could not retrieve prerequisite feature flag "
                             ++ Js.dquote ++ prereq_key prereq ++ Js.dquote),
                       PREREQUISITE_FAILED (prereq_key prereq)),
                 events)
      | Some prereqFlag =>
          let* r := evalInternal prereqFlag events in
          let '(o, events) := r in
          let events :=
            (events ++ [newEvalEvent factory prereqFlag u (detail_of o) None
                                     (Some flag)])%list in
          match err o with
          | Some e =>
              Js.Ok (Some (Some e, PREREQUISITE_FAILED (prereq_key prereq)),
                     events)
          | None =>
              if negb (on prereqFlag)
                 || negb (bool_decide (variationIndex (detail_of o)
                                       = Some (prereq_variation prereq)))
              then Js.Ok (Some (None, PREREQUISITE_FAILED (prereq_key prereq)),
                          events)
              else checkPrerequisitesLoop evalInternal rest flag u
                     featureStore events
          end
      end
  end.

(** [stack] bounds the depth of the recursion through prerequisites:
    when it is used up the engine throws, as it does when the call
    stack is. *)
Fixpoint evalInternal (stack : nat) (flag : item) (u : user)
    (featureStore : InMemoryFeatureStore.t) (events : list event)
    : Js.result (outcome * list event) :=
  match stack with
  | O => Js.Throw (Js.RangeError "Maximum call stack size exceeded")
  | S stack' =>
      if negb (on flag) then
        let* o := getOffResult flag OFF in
        Js.Ok (o, events)
      else
        let* r :=
          checkPrerequisitesLoop
            (fun f evs => evalInternal stack' f u featureStore evs)
            (default [] (prerequisites flag)) flag u featureStore events in
        let '(failed, events) := r in
        match failed with
        | Some (_, r) =>
            let* o := getOffResult flag r in
            Js.Ok (o, events)
        | None =>
            let* o := evalRules flag u featureStore in
            Js.Ok (o, events)
        end
  end.

Definition checkPrerequisites (stack : nat) (flag : item) (u : user)
    (featureStore : InMemoryFeatureStore.t) (events : list event) :=
  checkPrerequisitesLoop
    (fun f evs => evalInternal stack f u featureStore evs)
    (default [] (prerequisites flag)) flag u featureStore events.

(** [{ err, detail, events }] *)
Record evaluation := Evaluation {
  ev_err : option string;
  ev_detail : detail;
  ev_events : list event
}.

Definition evaluate (stack : nat) (flag : option item) (u : option user)
    (featureStore : InMemoryFeatureStore.t) : Js.result evaluation :=
  match u with
  | None => Js.Ok (Evaluation None (errorResult "USER_NOT_SPECIFIED") [])
  | Some u =>
      if Js.nullish (default Js.Undefined (props u !! "key")) then
        Js.Ok (Evaluation None (errorResult "USER_NOT_SPECIFIED") [])
      else
        match flag with
        | None => Js.Ok (Evaluation None (errorResult "FLAG_NOT_FOUND") [])
        | Some flag =>
            let sanitizedUser :=
              stringifyAttrs u userAttrsToStringifyForEvaluation in
            let* r :=
              evalInternal stack flag sanitizedUser featureStore [] in
            let '(o, events) := r in
            Js.Ok (Evaluation (err o) (detail_of o) events)
        end
  end.

End Events.

End Engine.

End Evaluate.

(* ===================================================================== *)
(** ** index.js: the client's evaluation entry points                     *)
(* ===================================================================== *)

Module Client.

Import Evaluate.

(** What a method of the client does besides returning: the errors
    handed to [maybeReportError] and the events handed to
    [eventProcessor.sendEvent], in order. Log lines are not recorded. *)
Record call (event A : Type) := Call {
  returned : A;
  reported : list string;
  sent : list event
}.
Arguments Call {event A}.
Arguments returned {event A}.
Arguments reported {event A}.
Arguments sent {event A}.

(** The state [variation] depends on. [config.featureStore] is the
    in-memory store behind the event wrapper, which forwards reads;
    [stack] is the depth of call stack left to the engine. *)
Record t := Client {
  offline : bool;
  initComplete : bool;
  featureStore : InMemoryFeatureStore.t;
  stack : nat
}.

Definition errorResult (errorKind : string) (defaultVal : jsval) : detail :=
  Detail defaultVal None (ERROR errorKind).

Definition exn_message (e : Js.exn) : string :=
  match e with
  | Js.TypeError m => m
  | Js.RangeError m => m
  end.

Section Methods.

Variable operators_fn : string -> jsval -> jsval -> bool.
Context {event : Type}.

(** Returns a detail object, or nothing ([None] is [undefined]) when
    control leaves through the [catch] block. *)
Definition variationInternal (c : t) (key : string) (u : option user)
    (defaultVal : jsval) (factory : eventFactory event)
    : call event (option detail) :=
  if offline c then
    Call (Some (errorResult "CLIENT_NOT_READY" defaultVal)) [] []
  else if String.eqb key EmptyString then
    Call (Some (errorResult "FLAG_NOT_FOUND" defaultVal))
         ["No feature flag key specified. Returning default value."] []
  else
    match InMemoryFeatureStore.get (featureStore c) dataKind.features key with
    | None =>
        let result := errorResult "FLAG_NOT_FOUND" defaultVal in
        Call (Some result)
             ["Unknown feature flag " ++ Js.dquote ++ key ++ Js.dquote
              ++ "; returning default value"]
             [newUnknownFlagEvent factory key u result]
    | Some flag =>
        match u with
        | None =>
            let result := errorResult "USER_NOT_SPECIFIED" defaultVal in
            Call (Some result)
                 ["No user specified. Returning default value."]
                 [newDefaultEvent factory flag u result]
        | Some usr =>
            match evaluate operators_fn factory (stack c) (Some flag) (Some usr)
                    (featureStore c) with
            | Js.Ok ev =>
                let detail :=
                  match variationIndex (ev_detail ev) with
                  | None => Detail defaultVal None (reason_of (ev_detail ev))
                  | Some _ => ev_detail ev
                  end in
                Call (Some detail) []
                     (ev_events ev
                      ++ [newEvalEvent factory flag usr detail (Some defaultVal)
                                       None])%list
            | Js.Throw e =>
                Call None
                     ["Encountered error evaluating feature flag:: "
                      ++ exn_message e] []
            end
        end
    end.

Definition evaluateIfPossible (c : t) (key : string) (u : option user)
    (defaultVal : jsval) (factory : eventFactory event)
    : call event (option detail) :=
  if negb (initComplete c) then
    if InMemoryFeatureStore.initialized (featureStore c) then
      variationInternal c key u defaultVal factory
    else
      let result := errorResult "CLIENT_NOT_READY" defaultVal in
      Call (Some result)
           ["Variation called before LaunchDarkly client initialization completed (did you wait for the 'ready' event?) - using default value"]
           [newUnknownFlagEvent factory key u result]
  else variationInternal c key u defaultVal factory.

Definition variationDetail (c : t) (key : string) (u : option user)
    (defaultVal : jsval) (eventFactoryWithReasons : eventFactory event)
    : call event (option detail) :=
  evaluateIfPossible c key u defaultVal eventFactoryWithReasons.

(** [evaluateIfPossible(...).value]: reading [value] of [undefined]
    throws. *)
Definition variation (c : t) (key : string) (u : option user)
    (defaultVal : jsval) (eventFactoryDefault : eventFactory event)
    : call event (Js.result jsval) :=
  let r := evaluateIfPossible c key u defaultVal eventFactoryDefault in
  Call (match returned r with
        | Some d => Js.Ok (value d)
        | None =>
            Js.Throw (Js.TypeError "Cannot read property 'value' of undefined")
        end)
       (reported r) (sent r).

End Methods.

(** The callback the client passes to [updateProcessor.start]: what it
    emits, and the [initComplete] / [failure] it keeps. The error it may
    be called with is given by its message and its status. *)
Inductive emitted : Type :=
| ready
| failed (error : string).

Record init_state := InitState {
  is_initComplete : bool;
  is_failure : option string;
  is_emitted : list emitted
}.

Definition on_start_callback (st : init_state) (e : option (string * option Z))
    : init_state :=
  match e with
  | Some (message, status) =>
      let error :=
        match status with
        | Some 401 => "Authentication failed. Double check your SDK key."
        | _ => message
        end in
      InitState (is_initComplete st) (Some error)
                (is_emitted st ++ [failed error])%list
  | None =>
      if negb (is_initComplete st)
      then InitState true (is_failure st) (is_emitted st ++ [ready])%list
      else st
  end.

End Client.

(* ===================================================================== *)
(** ** streaming.js: the streaming update processor                       *)
(* ===================================================================== *)

Module StreamProcessor.

(** The [data] of a received event: missing or empty, not parsable as
    JSON, or parsed. *)
Inductive body (A : Type) : Type :=
| NoData
| Malformed
| Parsed (a : A).
Arguments NoData {A}.
Arguments Malformed {A}.
Arguments Parsed {A} a.

(** The answer of the requestor to an indirect event. *)
Inductive response (A : Type) : Type :=
| RequestFailed (message : string) (status : option Z)
| Received (a : A).
Arguments RequestFailed {A}.
Arguments Received {A} a.

Record allPayload := AllPayload {
  flags : option (gmap string entry);
  segments : option (gmap string entry)
}.

(** What reaches the processor after [start(cb)]: the events of the
    stream, and the errors of the transport passed to [handleError]. An
    indirect event comes with the answer of the requestor to the request
    it starts. Log lines and diagnostics are left out. *)
Inductive input : Type :=
| put (data : body allPayload)
| patch (data : body (string * item))            (* path, data *)
| delete (data : body (string * Z))              (* path, version *)
| indirect_put (resp : response allPayload)
| indirect_patch (data : option string) (resp : response item)
| error (message : string) (status : option Z).

(** One invocation of [cb]: with no argument, or with an error. *)
Inductive invocation : Type :=
| cb_success
| cb_error (message : string) (status : option Z).

Record t := State {
  featureStore : InMemoryFeatureStore.t;
  invocations : list invocation;
  shut_down : bool
}.

Definition getKeyFromPath (k : kind) (path : string) : option string :=
  if String.prefix (dataKind.streamApiPath k) path
  then Some (substring (String.length (dataKind.streamApiPath k))
                       (String.length path) path)
  else None.

(** The first kind, in the order of [dataKind], whose prefix the path has. *)
Fixpoint route (ks : list kind) (path : string) : option (kind * string) :=
  match ks with
  | [] => None
  | k :: rest =>
      match getKeyFromPath k path with
      | Some key => Some (k, key)
      | None => route rest path
      end
  end.

Definition initData (all : allPayload) : gmap string (gmap string entry) :=
  let d := match flags all with
           | Some f => {[dataKind.namespace dataKind.features := f]}
           | None => ∅
           end in
  match segments all with
  | Some sg => <[dataKind.namespace dataKind.segments := sg]> d
  | None => d
  end.

Definition call_cb (st : t) (i : invocation) : t :=
  State (featureStore st) (invocations st ++ [i])%list (shut_down st).

Definition with_store (st : t) (s : InMemoryFeatureStore.t) : t :=
  State s (invocations st) (shut_down st).

Definition unexpected_payload : invocation :=
  cb_error "Unexpected payload from event stream" None.

Definition reportJsonError (st : t) : t :=
  call_cb st (cb_error "Malformed JSON data in event stream" None).

Section Handlers.

(** [errors.isHttpErrorRecoverable]; [errors.js] is not among the
    sources. *)
Variable isHttpErrorRecoverable : Z -> bool.

(** [handleError]: the boolean is its return value, [true] to retry
    and [false] to shut the connection down. *)
Definition handleError (st : t) (message : string) (status : option Z)
    : t * bool :=
  match status with
  | Some code =>
      if negb (code =? 0) && negb (isHttpErrorRecoverable code)
      then (call_cb st (cb_error message status), false)
      else (st, true)
  | None => (st, true)
  end.

Definition handle (st : t) (i : input) : t :=
  match i with
  | put NoData => call_cb st unexpected_payload
  | put Malformed => reportJsonError st
  | put (Parsed all) =>
      call_cb
        (with_store st (InMemoryFeatureStore.init (featureStore st) (initData all)))
        cb_success
  | patch NoData => call_cb st unexpected_payload
  | patch Malformed => reportJsonError st
  | patch (Parsed (path, data)) =>
      match route dataKind.all_kinds path with
      | Some (k, _) =>
          with_store st (InMemoryFeatureStore.upsert (featureStore st) k data)
      | None => st
      end
  | delete NoData => call_cb st unexpected_payload
  | delete Malformed => reportJsonError st
  | delete (Parsed (path, v)) =>
      match route dataKind.all_kinds path with
      | Some (k, key) =>
          with_store st (InMemoryFeatureStore.delete (featureStore st) k key v)
      | None => st
      end
  | indirect_put (RequestFailed message status) =>
      call_cb st (cb_error message status)
  | indirect_put (Received all) =>
      call_cb
        (with_store st (InMemoryFeatureStore.init (featureStore st) (initData all)))
        cb_success
  | indirect_patch None _ => call_cb st unexpected_payload
  | indirect_patch (Some path) resp =>
      match route dataKind.all_kinds path with
      | Some (k, key) =>
          match resp with
          | RequestFailed _ _ =>
              call_cb st
                (cb_error ("Unexpected error requesting " ++ key ++ " in "
                           ++ dataKind.namespace k) None)
          | Received it =>
              with_store st (InMemoryFeatureStore.upsert (featureStore st) k it)
          end
      | None => st
      end
  | error message status =>
      let '(st', retry) := handleError st message status in
      State (featureStore st') (invocations st') (negb retry)
  end.

(** The processor over a sequence of inputs: once [handleError] has
    answered "shut down", the event source delivers nothing more. *)
Fixpoint run (st : t) (inputs : list input) : t :=
  match inputs with
  | [] => st
  | i :: rest => if shut_down st then st else run (handle st i) rest
  end.

(** [processor.start(cb)] on a store. *)
Definition start (s : InMemoryFeatureStore.t) : t := State s [] false.

End Handlers.

End StreamProcessor.

(* ===================================================================== *)
(** ** Vocabulary of the properties                                       *)
(* ===================================================================== *)

Module Store := InMemoryFeatureStore.

(** *** Store *)

(** What the dictionary of kind [k] holds under [key], if anything. *)
Definition stored (s : Store.t) (k : kind) (key : string) : option entry :=
match Store.allData s !! dataKind.namespace k with
| Some items => items !! key
| None => None
end.

(** The version retained for [(k, key)]: that of the stored object, be it
    live or a tombstone. *)
Definition stored_version (s : Store.t) (k : kind) (key : string) : option Z :=
match stored s k key with
| Some (Object o) => Some (version o)
| _ => None
end.

(** [allData[kind.namespace]] exists. *)
Definition has_dictionary (s : Store.t) (k : kind) : Prop :=
is_Some (Store.allData s !! dataKind.namespace k).

Inductive update : Type :=
| Upsert (it : item)
| Delete (key : string) (v : Z).

Definition apply_update (k : kind) (s : Store.t) (u : update) : Store.t :=
match u with
| Upsert it => Store.upsert s k it
| Delete key v => Store.delete s k key v
end.

(** The version an update carries for [key], if it is about [key]. *)
Definition observed (name : string) (u : update) : option Z :=
match u with
| Upsert it =>
    if String.eqb (Store.property_name (key it)) name
    then Some (version it) else None
| Delete key' v => if String.eqb key' name then Some v else None
end.

(** The maximum of the versions seen so far and of the one [u] carries. *)
Definition observe (name : string) (cur : option Z) (u : update) : option Z :=
match observed name u, cur with
| Some v, Some c => Some (Z.max c v)
| Some v, None => Some v
| None, _ => cur
end.

(** *** Bucketing *)

(** The digits of a 32-bit word, most significant first. *)
Definition nibbles (x : Z) : list Z :=
map (fun i => Z.land (Z.shiftr x (4 * Z.of_nat i)) 0xf) [7; 6; 5; 4; 3; 2; 1; 0]%nat.

Definition hex_fold (ds : list Z) (acc : Z) : Z :=
fold_left (fun a d => 16 * a + d) ds acc.



(** *** Rollouts *)

(** The running total of [variationForUser] after the variations [vs],
    started at [sum]. *)
Definition cumulative_from (sum : F64.t) (vs : list weightedVariation) : F64.t :=
fold_left
  (fun s w => F64.add s (F64.div (F64.of_Z (wv_weight w)) (F64.of_Z 100000)))
  vs sum.

Definition cumulative (vs : list weightedVariation) : F64.t :=
cumulative_from (F64.Finite 0) vs.

(** [b < x] for a bucket [b], which is a finite double. *)
Definition below (b : Q) (x : F64.t) : Prop := F64.ltb (F64.Finite b) x = true.

(** The double [x] is a number not below [c]. *)
Definition at_least (c : Q) (x : F64.t) : Prop :=
match x with
| F64.Finite q => (c <= q)%Q
| F64.Inf s => s = false
| F64.NaN => False
end.

(** The double [x] is a number not above zero. *)
Definition at_most_zero (x : F64.t) : Prop :=
match x with
| F64.Finite q => (q <= 0)%Q
| F64.Inf s => s = true
| F64.NaN => False
end.

(** [rollout.bucketBy || 'key'] *)
Definition bucketBy_or_key (ro : rollout) : string :=
match ro_bucketBy ro with
| Some b => if String.eqb b EmptyString then "key" else b
| None => "key"
end.

(** The resolution as the specification words it, with
    [rollout.bucketBy ?? "key"]: only an absent [bucketBy] is replaced. *)
Definition variationForUser_as_specified (r : variationOrRollout) (u : user)
  (flag : item) : option Z :=
match vr_variation r with
| Some v => Some v
| None =>
    match vr_rollout r with
    | Some ro =>
        match ro_variations ro with
        | Some (w0 :: ws) =>
            let vs := w0 :: ws in
            let b := Evaluate.bucketUser u (key flag)
                       (default "key" (ro_bucketBy ro)) (salt flag) in
            match Evaluate.firstBucket b (F64.Finite 0) vs with
            | Some v => Some v
            | None => Some (wv_variation (List.last vs w0))
            end
        | _ => None
        end
    | None => None
    end
end.

(** *** Evaluation *)

(** The user is there and its key is neither [null] nor [undefined]. *)
Definition key_specified (u : option user) : bool :=
match u with
| None => false
| Some usr => negb (Js.nullish (default Js.Undefined (props usr !! "key")))
end.

Definition not_error (r : Evaluate.reason) : Prop :=
forall k, r <> Evaluate.ERROR k.

(** A detail with an [ERROR] reason has no variation index. *)
Definition index_or_error (d : Evaluate.detail) : Prop :=
forall k, Evaluate.reason_of d = Evaluate.ERROR k -> Evaluate.variationIndex d = None.

(** *** Streaming *)

(** Modelled from the spec: [errors.js] is not among the sources. Section 7:
    non-recoverable are the 4xx statuses other than 408 and 429; transport
    errors, 5xx, 408 and 429 are recoverable. *)
Definition isHttpErrorRecoverable (status : Z) : bool :=
if (400 <=? status) && (status <? 500)
then (status =? 408) || (status =? 429)
else true.

Section StreamVocabulary.

Variable recoverable : Z -> bool.




End StreamVocabulary.

Definition is_success (i : StreamProcessor.invocation) : bool :=
match i with
| StreamProcessor.cb_success => true
| StreamProcessor.cb_error _ _ => false
end.

(** The argument [cb] is invoked with. *)
Definition callback_argument (i : StreamProcessor.invocation)
  : option (string * option Z) :=
match i with
| StreamProcessor.cb_success => None
| StreamProcessor.cb_error m s => Some (m, s)
end.

(** The client's callback run over a sequence of invocations. *)
Definition client_fold (st : Client.init_state)
  (invs : list StreamProcessor.invocation) : Client.init_state :=
fold_left (fun st i => Client.on_start_callback st (callback_argument i)) invs st.


(* ===================================================================== *)
(** ** Sample data                                                        *)
(* ===================================================================== *)

(** An operator table in which nothing matches, and an event factory
    whose events carry nothing: enough where no clause is evaluated and
    no event is inspected. *)
Definition no_operators : string -> jsval -> jsval -> bool := fun _ _ _ => false.

Definition unit_events : Evaluate.eventFactory unit :=
Evaluate.EventFactory unit (fun _ _ _ _ _ => tt) (fun _ _ _ => tt) (fun _ _ _ => tt).

(** [{ key: 'userKeyA' }] *)
Definition userKeyA : user := User {[ "key" := Js.Str "userKeyA" ]} None.


(** [{ key: 'user' }] *)
Definition someUser : user := User {[ "key" := Js.Str "user" ]} None.

(** [{ key: '' }] *)
Definition blankKeyUser : user := User {[ "key" := Js.Str EmptyString ]} None.

(** [{ key: 'u', custom: { name: 'Bob' } }] *)
Definition customNameUser : user :=
User {[ "key" := Js.Str "u" ]} (Some {[ "name" := Js.Str "Bob" ]}).

(** [{ key: 'u', secondary: 's' }] *)
Definition secondaryUser : user :=
User (<[ "secondary" := Js.Str "s" ]> {[ "key" := Js.Str "u" ]}) None.

(** [{ key: 'feature', version: 1, on: false, offVariation: 1,
       variations: ['a','b','c'], fallthrough: { variation: 0 } }] *)
Definition flag_off : item :=
Item (Js.Present "feature") 1 false false
     (Some [Js.Str "a"; Js.Str "b"; Js.Str "c"]) (Some 1)
     (Some (VariationOrRollout (Some 0) None)) None None None Js.Absent None None.

(** A flag with key ['hashKey'] and salt ['saltyA'] falling through to [ft]. *)
Definition hashFlag (ft : variationOrRollout) : item :=
Item (Js.Present "hashKey") 1 false true (Some [Js.Str "a"; Js.Str "b"]) None
     (Some ft) None None None (Js.Present "saltyA") None None.

(** [{ rollout: { bucketBy: '', variations:
       [{ variation: 0, weight: 10000 }, { variation: 1, weight: 90000 }] } }] *)
Definition rollout_by_empty : variationOrRollout :=
VariationOrRollout None
  (Some (Rollout (Some [WeightedVariation 0 10000; WeightedVariation 1 90000])
                 (Some EmptyString))).

(** [{ rollout: { variations:
       [{ variation: 0, weight: 10000 }, { variation: 1, weight: 90000 }] } }] *)
Definition rollout_by_key : variationOrRollout :=
VariationOrRollout None
  (Some (Rollout (Some [WeightedVariation 0 10000; WeightedVariation 1 90000])
                 None)).

(** [{ rollout: { variations: [{ variation: 0, weight: 10000 }] } }] *)
Definition rollout_too_short : variationOrRollout :=
VariationOrRollout None
  (Some (Rollout (Some [WeightedVariation 0 10000]) None)).

(** [{ id: 'r0', clauses: [], variation: 0 }] *)
Definition rule_without_clauses : rule :=
Rule (Js.Present "r0") (Some []) (Some 0) None None None.

(** A flag that lists itself as its prerequisite:
    [{ key: 'a', version: 1, on: true, variations: ['x','y'], offVariation: 0,
       fallthrough: { variation: 1 }, prerequisites: [{ key: 'a', variation: 1 }],
       salt: 'salt' }] *)
Definition selfPrerequisite : item :=
Item (Js.Present "a") 1 false true (Some [Js.Str "x"; Js.Str "y"]) (Some 0)
     (Some (VariationOrRollout (Some 1) None))
     (Some [Prerequisite "a" 1]) None None (Js.Present "salt") None None.

(** The store after [init({ features: { a: selfPrerequisite } })]. *)
Definition cyclicStore : Store.t :=
Store.init Store.new {[ "features" := {[ "a" := Object selfPrerequisite ]} ]}.


(** The store after [init({ features: { foo: null } })]. *)
Definition nullStore : Store.t :=
Store.init Store.new {[ "features" := {[ "foo" := Null ]} ]}.

(** A [put] whose data has empty [flags] and [segments]. *)
Definition emptyPut : StreamProcessor.input :=
StreamProcessor.put
  (StreamProcessor.Parsed (StreamProcessor.AllPayload (Some ∅) (Some ∅))).

(** The inputs of the repository's tests. *)

(** Modelled from the spec: [event_factory.js] is not among the sources.
    Section 4.4.1: a prerequisite event carries the prerequisite flag's key
    and version, the selected variation index and value, and the key of the
    containing flag as [prereqOf]. *)
Record prereqEvent := PrereqEvent {
  pe_key : Js.nullable string;
  pe_version : Z;
  pe_variation : option Z;
  pe_value : jsval;
  pe_prereqOf : Js.nullable string
}.

Definition recording_events : Evaluate.eventFactory prereqEvent :=
Evaluate.EventFactory prereqEvent
  (fun flag _ d _ prereqOf =>
     PrereqEvent (key flag) (version flag) (Evaluate.variationIndex d)
                 (Evaluate.value d)
                 (match prereqOf with Some f => key f | None => Js.Absent end))
  (fun flag _ d =>
     PrereqEvent (key flag) (version flag) (Evaluate.variationIndex d)
                 (Evaluate.value d) Js.Absent)
  (fun name _ d =>
     PrereqEvent (Js.Present name) 0 (Evaluate.variationIndex d) (Evaluate.value d)
                 Js.Absent).

(** [initedStore()] of the store tests. *)
Definition initedStore : Store.t :=
Store.init Store.new
  {[ "features" := <[ "bar" := Object (versioned "bar" 10) ]>
                     {[ "foo" := Object (versioned "foo" 10) ]} ]}.

(** The flag of the tests on the off variation, with [offVariation] as given. *)
Definition test_flag_off (off : option Z) : item :=
Item (Js.Present "feature") 0 false false
     (Some [Js.Str "a"; Js.Str "b"; Js.Str "c"]) off
     (Some (VariationOrRollout (Some 0) None)) None None None Js.Absent None None.

(** [feature0] of the prerequisite tests: it requires variation 1 of
    [feature1]. *)
Definition feature0 : item :=
Item (Js.Present "feature0") 1 false true
     (Some [Js.Str "a"; Js.Str "b"; Js.Str "c"]) (Some 1)
     (Some (VariationOrRollout (Some 0) None))
     (Some [Prerequisite "feature1" 1]) (Some []) (Some []) Js.Absent None None.

(** [feature1] of the prerequisite tests, on or off, falling through to the
    given variation. *)
Definition feature1 (is_on : bool) (off : option Z) (ft : Z) : item :=
Item (Js.Present "feature1") 2 false is_on (Some [Js.Str "d"; Js.Str "e"]) off
     (Some (VariationOrRollout (Some ft) None)) None (Some []) (Some [])
     Js.Absent None None.

Definition defineFeatures (fs : list item) : Store.t :=
Store.init Store.new
  {[ "features" :=
       fold_left (fun m f => <[Store.property_name (key f) := Object f]> m) fs ∅ ]}.

(** The flag of the test on targets. *)
Definition targetFlag : item :=
Item (Js.Present "feature0") 0 false true
     (Some [Js.Str "a"; Js.Str "b"; Js.Str "c"]) (Some 1)
     (Some (VariationOrRollout (Some 0) None)) None
     (Some [Target (Some 2) (Some ["some"; "userkey"; "or"; "other"])])
     (Some []) Js.Absent None None.

(** The flag of the rollout tests, falling through to a rollout over the
    given weighted variations. *)
Definition rolloutFlag (vs : list weightedVariation) : item :=
Item (Js.Present "flagkey") 0 false true (Some [Js.Null; Js.Null; Js.Null]) None
     (Some (VariationOrRollout None (Some (Rollout (Some vs) None))))
     None None None (Js.Present "salt") None None.

(** [{ key: 'userkey' }] *)
Definition userkeyUser : user := User {[ "key" := Js.Str "userkey" ]} None.

(** A [put] that carries flags and no segments, then the deletion of a
    segment at version 5, then a patch of that segment at version 3. *)
Definition segmentDeletedThenPatched : list StreamProcessor.input :=
[ StreamProcessor.put
    (StreamProcessor.Parsed (StreamProcessor.AllPayload (Some ∅) None));
  StreamProcessor.delete (StreamProcessor.Parsed ("/segments/s", 5));
  StreamProcessor.patch (StreamProcessor.Parsed ("/segments/s", versioned "s" 3)) ].

(* ===================================================================== *)
(** ** index.js: tracking, and waiting for initialisation                 *)
(* ===================================================================== *)

Module ClientTracking.

Definition userExistsAndHasKey (u : option user) : bool :=
match u with
| Some usr =>
    match props usr !! "key" with
    | None | Some Js.Undefined | Some Js.Null => false
    | Some (Js.Str k) => negb (String.eqb k EmptyString)
    | Some _ => true
    end
| None => false
end.

Section Events.

Context {event : Type}.

(** [eventFactoryDefault.newCustomEvent] and [newIdentifyEvent]; the
    factory is not among the sources. *)
Variable newCustomEvent : string -> user -> option jsval -> option jsval -> event.
Variable newIdentifyEvent : user -> event.

(** The events [client.track] hands to [eventProcessor.sendEvent]. *)
Definition track (eventName : string) (u : option user) (data : option jsval)
  (metricValue : option jsval) : list event :=
if negb (userExistsAndHasKey u) then []
else match u with
     | Some usr => [newCustomEvent eventName usr data metricValue]
     | None => []
     end.

(** The events [client.identify] hands to [eventProcessor.sendEvent]. *)
Definition identify (u : option user) : list event :=
if negb (userExistsAndHasKey u) then []
else match u with
     | Some usr => [newIdentifyEvent usr]
     | None => []
     end.

End Events.

(** The promise [client.waitForInitialization] returns, at the time of the
    call. *)
Inductive promise : Type :=
| Resolved
| Rejected (failure : string)
| Pending.

Definition waitForInitialization (st : Client.init_state) : promise :=
if Client.is_initComplete st then Resolved
else match Client.is_failure st with
     | Some failure => Rejected failure
     | None => Pending
     end.

(** The same promise later, the client having emitted [es] since the
    call: a pending promise listens with [once] for ['ready'] and for
    ['failed'] and is settled by the first of them; a settled promise
    stays as it is. *)
Definition settle (p : promise) (es : list Client.emitted) : promise :=
match p, es with
| Pending, Client.ready :: _ => Resolved
| Pending, Client.failed error :: _ => Rejected error
| _, _ => p
end.

End ClientTracking.

(* ===================================================================== *)
(** ** Further vocabulary                                                 *)
(* ===================================================================== *)

(** What a read shows of a stored object: nothing of a tombstone. *)
Definition live (it : item) : option item :=
if deleted it then None else Some it.

(** The key an upsert files [it] under. *)
Definition filed_under (it : item) : string := Store.property_name (key it).

(** An outcome of the engine for [flag] is coherent: a variation index
    comes with no error, lies within [flag.variations] and selects the
    value; no index comes with the value null; and an error comes with
    the detail of [MALFORMED_FLAG]. *)
Definition coherent (flag : item) (o : Evaluate.outcome) : Prop :=
match Evaluate.variationIndex (Evaluate.detail_of o) with
| Some i =>
    Evaluate.err o = None
    /\ 0 <= i < Z.of_nat (length (default [] (variations flag)))
    /\ default [] (variations flag) !! (Z.to_nat i)
       = Some (Evaluate.value (Evaluate.detail_of o))
| None =>
    Evaluate.value (Evaluate.detail_of o) = Js.Null
end
/\ (Evaluate.err o <> None ->
    Evaluate.detail_of o = Evaluate.errorResult "MALFORMED_FLAG").

(** The clause [c] with [negate] flipped. *)
Definition negated (c : clause) : clause :=
Clause (attribute c) (op c) (values c) (negb (negate c)).

(** The user's key is the string [k]. *)
Definition has_string_key (u : user) (k : string) : Prop :=
props u !! "key" = Some (Js.Str k).


(** The input is an event without data or with data that does not parse. *)
Definition is_bad_event (i : StreamProcessor.input) : bool :=
match i with
| StreamProcessor.put StreamProcessor.NoData
| StreamProcessor.put StreamProcessor.Malformed
| StreamProcessor.patch StreamProcessor.NoData
| StreamProcessor.patch StreamProcessor.Malformed
| StreamProcessor.delete StreamProcessor.NoData
| StreamProcessor.delete StreamProcessor.Malformed
| StreamProcessor.indirect_patch None _ => true
| _ => false
end.

(** The error the client's callback keeps as [failure] and emits with
    ['failed'], by its message. *)
Definition failure_message (message : string) (status : option Z) : string :=
match status with
| Some 401 => "Authentication failed. Double check your SDK key."
| _ => message
end.

(** The [failure] the client keeps after the invocations [invs], [cur]
    being the one it kept before. *)
Fixpoint last_failure (invs : list StreamProcessor.invocation) (cur : option string)
  : option string :=
match invs with
| [] => cur
| StreamProcessor.cb_success :: rest => last_failure rest cur
| StreamProcessor.cb_error m s :: rest =>
    last_failure rest (Some (failure_message m s))
end.

(** The client's state before the update processor is started. *)
Definition not_started : Client.init_state := Client.InitState false None [].

(** What the client emits while its callback is invoked with [invs],
    from the state [st] on. *)
Definition emitted_during (st : Client.init_state)
  (invs : list StreamProcessor.invocation) : list Client.emitted :=
drop (length (Client.is_emitted st)) (Client.is_emitted (client_fold st invs)).

(** The promise of a call to [waitForInitialization] made when the
    callback had been invoked with [before], as it is once the callback
    has also been invoked with [after]. *)
Definition promise_taken (before after : list StreamProcessor.invocation)
  : ClientTracking.promise :=
let st := client_fold not_started before in
ClientTracking.settle (ClientTracking.waitForInitialization st)
                      (emitted_during st after).

(** The name whose assignment sets the prototype of an object. *)
Definition proto : string := "__proto__".

(** Sample data for the further properties. *)


(** A clause on an attribute no sample user has. *)
Definition legsClause (neg : bool) : clause :=
Clause "legs" "in" [Js.Num 4] neg.

(** A clause naming the segment ['test']. *)
Definition segmentClause (neg : bool) : clause :=
Clause EmptyString "segmentMatch" [Js.Str "test"] neg.

(** [{ key: 'test', version: 1, included: ['foo'], excluded: ['foo'] }] *)
Definition testSegment : item :=
Item (Js.Present "test") 1 false false None None None None None None Js.Absent
     (Some ["foo"]) (Some ["foo"]).

(** [{ key: 'foo' }] *)
Definition fooUser : user := User {[ "key" := Js.Str "foo" ]} None.

(** A segment rule without clauses, of the given weight. *)
Definition weightRule (w : Z) : rule :=
Rule Js.Absent (Some []) None None (Some w) None.

(** Two flag rules with the ids ['id0'] and ['id1']; only the second has
    no clause to fail. *)
Definition rule_id0 : rule :=
Rule (Js.Present "id0") (Some [legsClause false]) (Some 1) None None None.

Definition rule_id1 : rule :=
Rule (Js.Present "id1") (Some []) (Some 2) None None None.

(** A flag with the two rules above. *)
Definition rulesFlag : item :=
Item (Js.Present "feature") 1 false true
     (Some [Js.Str "a"; Js.Str "b"; Js.Str "c"]) (Some 1)
     (Some (VariationOrRollout (Some 0) None)) None (Some [])
     (Some [rule_id0; rule_id1]) Js.Absent None None.

(** An online, initialised client over a store. *)
Definition readyClient (s : Store.t) : Client.t := Client.Client false true s 8.

(* ===================================================================== *)
(** * Properties                                                          *)
(* ===================================================================== *)

Import Evaluate.
Module SP := StreamProcessor.

(* ===================================================================== *)
(** ** The digest                                                         *)
(* ===================================================================== *)

(** The test vectors of the standard. *)
Example sha1_abc : Sha1.hex "abc" = "a9993e364706816aba3e25717850c26c9cd0d89d".
Proof. vm_compute. reflexivity. Qed.

Example sha1_empty : Sha1.hex EmptyString = "da39a3ee5e6b4b0d3255bfef95601890afd80709".
Proof. vm_compute. reflexivity. Qed.

Example sha1_two_blocks :
  Sha1.hex "abcdbcdecdefdefgefghfghighijhijkijkljklmklmnlmnomnopnopq"
  = "84983e441c3bd26ebaae4aa1f95129e5e54670f1".
Proof. vm_compute. reflexivity. Qed.

Lemma land15 (a : Z) : 0 <= Z.land a 15 < 16.
Proof.
  change 15 with (Z.ones 4). rewrite Z.land_ones by lia.
  apply Z.mod_pos_bound. lia.
Qed.

Lemma hex_value_hex_digit (d : Z) :
  0 <= d < 16 -> Js.hex_value (Sha1.hex_digit d) = Some d.
Proof.
  intros H.
  assert (d = 0 \/ d = 1 \/ d = 2 \/ d = 3 \/ d = 4 \/ d = 5 \/ d = 6 \/ d = 7 \/
          d = 8 \/ d = 9 \/ d = 10 \/ d = 11 \/ d = 12 \/ d = 13 \/ d = 14 \/ d = 15)
    as Hd by lia.
  repeat (destruct Hd as [->|Hd]; [reflexivity|]). by subst.
Qed.

(** Parsing a string of digits folds them, most significant first. *)
Lemma parse_hex_digits (ds : list Z) (seen : bool) (acc : Z) :
  Forall (fun d => 0 <= d < 16) ds ->
  Js.parse_hex (string_of_list_ascii (map Sha1.hex_digit ds)) seen acc
  = if seen || negb (bool_decide (ds = [])) then Some (hex_fold ds acc) else None.
Proof.
  intros H. revert seen acc. induction H as [|d ds Hd _ IH]; intros seen acc; simpl.
  - by destruct seen.
  - rewrite (hex_value_hex_digit d Hd), IH. simpl. by rewrite orb_true_r.
Qed.

Lemma hex_fold_bound (ds : list Z) (acc : Z) :
  Forall (fun d => 0 <= d < 16) ds -> 0 <= acc ->
  0 <= hex_fold ds acc < (acc + 1) * 16 ^ Z.of_nat (length ds).
Proof.
  intros H. revert acc. induction H as [|d ds Hd _ IH]; intros acc Hacc; simpl.
  - lia.
  - specialize (IH (16 * acc + d) ltac:(lia)).
    rewrite Nat2Z.inj_succ, Z.pow_succ_r by lia.
    unfold hex_fold in *. nia.
Qed.

Lemma substring_take (n : nat) (l : list ascii) :
  substring 0 n (string_of_list_ascii l) = string_of_list_ascii (take n l).
Proof.
  revert l. induction n as [|n IH]; intros [|c l]; simpl; try done. by rewrite IH.
Qed.

Lemma hex_words_nibbles (ws : list Z) :
  concat (map Sha1.hex_word ws) = map Sha1.hex_digit (concat (map nibbles ws)).
Proof.
  induction ws as [|w ws IH]; [done|]. cbn [concat map]. rewrite map_app, <- IH. done.
Qed.

Lemma nibbles_range (ws : list Z) :
  Forall (fun d => 0 <= d < 16) (concat (map nibbles ws)).
Proof.
  induction ws as [|w ws IH]; simpl; [constructor|].
  repeat (constructor; [apply land15|]). done.
Qed.

Lemma digest_words_length (msg : list Z) : length (Sha1.digest_words msg) = 5%nat.
Proof. reflexivity. Qed.

(** The fifteen leading characters of a digest always parse, to a number
    below [2^60]: [parseInt] never yields [NaN] in [bucketUser]. *)
Lemma parseInt16_sha1Hex (input : string) :
  exists n, Js.parseInt16 (substring 0 15 (sha1Hex input)) = Some n /\ 0 <= n < 2 ^ 60.
Proof.
  unfold sha1Hex, Sha1.hex, Js.parseInt16.
  set (ws := Sha1.digest_words _).
  assert (length ws = 5%nat) as Hlen by apply digest_words_length.
  rewrite hex_words_nibbles, substring_take, firstn_map.
  set (ds := take 15 (concat (map nibbles ws))).
  assert (Forall (fun d => 0 <= d < 16) ds) as Hds.
  { apply Forall_take, nibbles_range. }
  assert (length ds = 15%nat) as Hl.
  { subst ds. destruct ws as [|a [|b [|c [|d [|e [|]]]]]]; try discriminate Hlen.
    reflexivity. }
  rewrite parse_hex_digits by done.
  assert (bool_decide (ds = []) = false) as ->.
  { apply bool_decide_eq_false. intros E. by rewrite E in Hl. }
  cbn [orb negb]. eexists. split; [reflexivity|].
  pose proof (hex_fold_bound ds 0 Hds ltac:(lia)) as Hb. rewrite Hl in Hb.
  change (16 ^ Z.of_nat 15) with (2 ^ 60) in Hb. lia.
Qed.

(* ===================================================================== *)
(** ** Rounding to a double                                               *)
(* ===================================================================== *)

(** The literal [0xfffffffffffffff] denotes the double [2^60]. *)
Lemma number_of_Z_denominator : Js.number_of_Z 0xfffffffffffffff = 2 ^ 60.
Proof. vm_compute. reflexivity. Qed.

Lemma log2_cases (n : Z) :
  2 ^ 53 <= n < 2 ^ 60 ->
  exists l, Z.log2 n = l /\ 53 <= l <= 59 /\ 2 ^ l <= n < 2 ^ (l + 1).
Proof.
  intros H. exists (Z.log2 n). split; [done|].
  pose proof (Z.log2_spec n ltac:(lia)) as Hs.
  split; [|rewrite <- Z.add_1_r in Hs; lia].
  split.
  - change 53 with (Z.log2 (2 ^ 53)). apply Z.log2_le_mono. lia.
  - assert (Z.log2 n < 60); [|lia]. apply Z.log2_lt_pow2; lia.
Qed.

(** Below [2^60] the rounding moves an integer by at most 64, and reaches
    [2^60] exactly from [2^60 - 64] on. *)
Lemma number_of_Z_spec (n : Z) :
  0 <= n < 2 ^ 60 ->
  Z.abs (Js.number_of_Z n - n) <= 64
  /\ 0 <= Js.number_of_Z n <= 2 ^ 60
  /\ (Js.number_of_Z n < 2 ^ 60 <-> n < 2 ^ 60 - 64).
Proof.
  intros Hn. unfold Js.number_of_Z.
  destruct (Z.ltb_spec n (2 ^ 53)) as [Hs|Hs]; [lia|].
  destruct (log2_cases n ltac:(lia)) as (l & -> & Hl & Hb).
  assert (l = 53 \/ l = 54 \/ l = 55 \/ l = 56 \/ l = 57 \/ l = 58 \/ l = 59)
    as Hc by lia.
  assert (forall q, Z.even q = true -> exists k, q = 2 * k) as Hev.
  { intros q Hq. apply Z.even_spec in Hq. destruct Hq as [k ->]. eauto. }
  repeat match type of Hc with
         | _ \/ _ => destruct Hc as [->|Hc]
         | _ = _ => subst l
         end;
    match goal with
    | |- context [n / 2 ^ ?e] =>
        let p := eval vm_compute in (2 ^ e) in
        let h := eval vm_compute in (2 ^ (e - 1)) in
        change (2 ^ e) with p; change (2 ^ (e - 1)) with h;
        pose proof (Z.div_mod n p ltac:(lia)) as Hdm;
        pose proof (Z.mod_pos_bound n p ltac:(lia)) as Hmb;
        set (q := n / p) in *; set (r := n mod p) in *
    end;
    simpl in Hb;
    repeat match goal with
           | |- context [?a <? ?b] => destruct (Z.ltb_spec a b)
           end;
    try lia;
    (destruct (Z.even q) eqn:Hq; [destruct (Hev q Hq) as [k Hk]|]; lia).
Qed.

(** The quotient [hashVal / 0xfffffffffffffff] of the doubles, against the
    quotient of the integers. *)
Lemma quotient_facts (n : Z) :
  0 <= n < 2 ^ 60 ->
  let b := (inject_Z (Js.number_of_Z n)
            / inject_Z (Js.number_of_Z 0xfffffffffffffff))%Q in
  (0 <= b)%Q /\ (b <= 1)%Q
  /\ (Qabs (b - inject_Z n / inject_Z 0xfffffffffffffff) <= 1 # (2 ^ 53))%Q
  /\ ((b < 1)%Q <-> n < 2 ^ 60 - 64).
Proof.
  intros Hn b. subst b. rewrite number_of_Z_denominator.
  destruct (number_of_Z_spec n Hn) as (Habs & Hrange & Hlt).
  set (m := Js.number_of_Z n) in *.
  repeat split.
  - unfold Qle, Qdiv, Qmult, Qinv, inject_Z. simpl. lia.
  - unfold Qle, Qdiv, Qmult, Qinv, inject_Z. simpl. lia.
  - apply Qabs_Qle_condition.
    split; unfold Qle, Qminus, Qplus, Qopp, Qdiv, Qmult, Qinv, inject_Z; simpl; lia.
  - unfold Qlt, Qdiv, Qmult, Qinv, inject_Z. simpl. lia.
  - unfold Qlt, Qdiv, Qmult, Qinv, inject_Z. simpl. lia.
Qed.

(* ===================================================================== *)
(** ** Bucketing                                                          *)
(* ===================================================================== *)



(** The quotient does reach 1: the digits [fffffffffffffc0] and all above
    parse to an integer whose nearest double is [2^60], which is also the
    double of the divisor. Whether a digest begins with such digits is a
    matter of SHA-1, not of this code. *)
Example quotient_reaches_one :
  Js.parseInt16 "fffffffffffffc0" = Some (2 ^ 60 - 64)
  /\ Js.number_of_Z (2 ^ 60 - 64) = Js.number_of_Z 0xfffffffffffffff
  /\ Js.number_of_Z (2 ^ 60 - 65) < Js.number_of_Z 0xfffffffffffffff.
Proof. vm_compute. repeat split; reflexivity. Qed.

(** The other golden values, and an integer attribute bucketing as its
    decimal rendering. *)
Example bucketUser_userKeyB :
  (Qabs (bucketUser (User {[ "key" := Js.Str "userKeyB" ]} None)
                    (Js.Present "hashKey") "key" (Js.Present "saltyA")
         - (6708485 # 10000000)) <= 1 # 10000000)%Q.
Proof. apply Qle_bool_iff. vm_compute. reflexivity. Qed.

Example bucketUser_userKeyC :
  (Qabs (bucketUser (User {[ "key" := Js.Str "userKeyC" ]} None)
                    (Js.Present "hashKey") "key" (Js.Present "saltyA")
         - (10343106 # 100000000)) <= 1 # 10000000)%Q.
Proof. apply Qle_bool_iff. vm_compute. reflexivity. Qed.

Example bucketUser_int_as_string :
  let u := User {[ "key" := Js.Str "userKey" ]}
                (Some (<[ "intAttr" := Js.Num 33333 ]>
                         {[ "stringAttr" := Js.Str "33333" ]})) in
  bucketUser u (Js.Present "hashKey") "intAttr" (Js.Present "saltyA")
  = bucketUser u (Js.Present "hashKey") "stringAttr" (Js.Present "saltyA").
Proof. vm_compute. reflexivity. Qed.

(** An integer is hashed as [String] renders the double: in full up to
    [10^21], with the digits that tell the double from its neighbours, and
    in exponent notation from there on. *)
Example string_of_large_integers :
  Js.string_of_Z (2 ^ 53 - 1) = "9007199254740991"
  /\ Js.string_of_Z (2 ^ 60) = "1152921504606847000"
  /\ Js.string_of_Z (10 ^ 21 - 2 ^ 17) = "999999999999999900000"
  /\ Js.string_of_Z (10 ^ 21) = "1e+21"
  /\ Js.string_of_Z (2 ^ 70) = "1.1805916207174113e+21"
  /\ Js.string_of_Z (- 10 ^ 23) = "-1e+23".
Proof. vm_compute. repeat split; reflexivity. Qed.

Example bucketUser_large_integer :
  let u := User {[ "key" := Js.Str "userKey" ]}
                (Some {[ "intAttr" := Js.Num (10 ^ 21) ]}) in
  (Qabs (bucketUser u (Js.Present "hashKey") "intAttr" (Js.Present "saltyA")
         - (469672259 # 1000000000)) <= 1 # 1000000000)%Q.
Proof. apply Qle_bool_iff. vm_compute. reflexivity. Qed.

(** A salt that is [null] is hashed as ['null'], one that is absent as
    ['undefined']. *)
Example bucketUser_null_salt :
  (Qabs (bucketUser userKeyA (Js.Present "hashKey") "key" Js.IsNull
         - (5040650954 # 10000000000)) <= 1 # 10000000000)%Q
  /\ (Qabs (bucketUser userKeyA (Js.Present "hashKey") "key" Js.Absent
            - (3837614996 # 10000000000)) <= 1 # 10000000000)%Q.
Proof. split; apply Qle_bool_iff; vm_compute; reflexivity. Qed.

(** Only strings and integers are bucketable. *)
Lemma bucketableStringValue_None (v : jsval) :
  bucketableStringValue v = None
  <-> (forall s, v <> Js.Str s) /\ (forall z, v <> Js.Num z).
Proof.
  destruct v; simpl; split; try done;
    try (intros [H1 H2]; exfalso; first [by eapply H1 | by eapply H2]).
Qed.

(** A float-valued attribute gives bucket 0. *)
Example bucketUser_float :
  bucketUser (User {[ "key" := Js.Str "userKey" ]}
                   (Some {[ "floatAttr" := Js.Float "33.5" ]}))
             (Js.Present "hashKey") "floatAttr" (Js.Present "saltyA") = 0%Q.
Proof. reflexivity. Qed.

(* ===================================================================== *)
(** ** The store                                                          *)
(* ===================================================================== *)

Section StoreFacts.

Implicit Types (s : Store.t) (k : kind) (name : string) (v : Z).

Lemma get_stored s k name :
  Store.get s k name = match stored s k name with
                       | Some (Object it) => if deleted it then None else Some it
                       | _ => None
                       end.
Proof.
  unfold Store.get, stored.
  destruct (Store.allData s !! dataKind.namespace k); simpl; [|done].
  by destruct (_ !! name) as [[|?]|].
Qed.

(** What an upsert leaves under a key. *)
Lemma stored_upsert s k (it : item) name :
  stored (Store.upsert s k it) k name =
  if String.eqb (Store.property_name (key it)) name then
    match stored s k name with
    | Some (Object o) =>
        if version o <? version it then Some (Object it) else Some (Object o)
    | Some Null => Some Null
    | None => if String.eqb name proto then None else Some (Object it)
    end
  else stored s k name.
Proof.
  unfold stored, Store.upsert. simpl. rewrite lookup_insert_eq.
  set (items := default ∅ (Store.allData s !! dataKind.namespace k)).
  assert (match Store.allData s !! dataKind.namespace k with
          | Some i => i !! name | None => None end = items !! name) as ->.
  { subst items. destruct (Store.allData s !! _); [done|].
    simpl. symmetry. apply lookup_empty. }
  unfold Store.create, proto.
  destruct (String.eqb_spec (Store.property_name (key it)) name) as [->|Hne].
  - destruct (items !! name) as [[|o]|] eqn:E; [done| |].
    + destruct (version o <? version it); [by rewrite lookup_insert_eq|done].
    + destruct (String.eqb name "__proto__"); [done|by rewrite lookup_insert_eq].
  - destruct (items !! Store.property_name (key it)) as [[|o]|]; [done| |].
    + destruct (version o <? version it); [by rewrite lookup_insert_ne|done].
    + destruct (String.eqb _ "__proto__"); [done|by rewrite lookup_insert_ne].
Qed.

(** What a delete leaves under a key, when the dictionary of the kind
    exists. *)
Lemma stored_delete s k name' v name :
  has_dictionary s k ->
  stored (Store.delete s k name' v) k name =
  if String.eqb name' name then
    match stored s k name with
    | Some (Object o) =>
        if version o <? v then Some (Object (Store.deletedItem v))
        else Some (Object o)
    | Some Null => Some (Object (Store.deletedItem v))
    | None =>
        if String.eqb name proto then None
        else Some (Object (Store.deletedItem v))
    end
  else stored s k name.
Proof.
  intros [items Hns]. unfold stored, Store.delete. rewrite Hns. simpl.
  rewrite lookup_insert_eq. unfold Store.create, proto.
  destruct (String.eqb_spec name' name) as [->|Hne].
  - destruct (items !! name) as [[|o]|] eqn:E; [by rewrite lookup_insert_eq| |].
    + destruct (version o <? v); [by rewrite lookup_insert_eq|done].
    + destruct (String.eqb name "__proto__"); [done|by rewrite lookup_insert_eq].
  - destruct (items !! name') as [[|o]|]; [by rewrite lookup_insert_ne| |].
    + destruct (version o <? v); [by rewrite lookup_insert_ne|done].
    + destruct (String.eqb name' "__proto__"); [done|by rewrite lookup_insert_ne].
Qed.

Lemma apply_update_has_dictionary s k (u : update) :
  has_dictionary s k -> has_dictionary (apply_update k s u) k.
Proof.
  intros [items Hns]. destruct u as [it|name v]; unfold has_dictionary; simpl.
  - unfold Store.upsert. simpl. rewrite lookup_insert_eq. eauto.
  - unfold Store.delete. rewrite Hns. simpl. rewrite lookup_insert_eq. eauto.
Qed.

Lemma apply_update_step s k name (u : update) (o : item) :
  has_dictionary s k -> stored s k name = Some (Object o) ->
  stored_version (apply_update k s u) k name = observe name (stored_version s k name) u
  /\ exists o', stored (apply_update k s u) k name = Some (Object o').
Proof.
  intros Hd Ho. unfold stored_version, observe.
  destruct u as [it|name' v]; simpl.
  - rewrite stored_upsert, Ho.
    destruct (String.eqb (Store.property_name (key it)) name); [|by eauto].
    destruct (Z.ltb_spec (version o) (version it));
      (split; [f_equal; lia|by eauto]).
  - rewrite stored_delete, Ho by done.
    destruct (String.eqb name' name); [|by eauto].
    destruct (Z.ltb_spec (version o) v); (split; [simpl; f_equal; lia|by eauto]).
Qed.

(** Where the dictionary of the kind exists and the entry is an object,
    the retained version is the maximum of the stored one and of those the
    upserts and deletes carried. *)
Lemma stored_version_is_max k name (us : list update) s (o : item) :
  has_dictionary s k -> stored s k name = Some (Object o) ->
  stored_version (fold_left (apply_update k) us s) k name
  = fold_left (observe name) us (stored_version s k name).
Proof.
  revert s o. induction us as [|u us IH]; intros s o Hd Ho; [done|].
  simpl. destruct (apply_update_step s k name u o Hd Ho) as [Hv [o' Ho']].
  rewrite (IH _ o'); [by rewrite Hv| by apply apply_update_has_dictionary | done].
Qed.

(** Where the dictionary of the kind is missing, a delete leaves nothing
    under the kind, whatever its version: the upsert that follows is
    accepted at any version. *)
Lemma delete_without_dictionary s k name v (x : item) :
  Store.allData s !! dataKind.namespace k = None ->
  dataKind.namespace k <> Store.object_as_property_name ->
  stored (Store.delete s k name v) k name = None
  /\ (Store.property_name (key x) <> proto ->
      stored (Store.upsert (Store.delete s k name v) k x) k
             (Store.property_name (key x)) = Some (Object x)).
Proof.
  intros Hns Hne.
  assert (stored (Store.delete s k name v) k (Store.property_name (key x)) = None
          /\ stored (Store.delete s k name v) k name = None) as [H1 H2].
  { unfold stored, Store.delete. rewrite Hns. simpl.
    rewrite lookup_insert_ne by done. by rewrite Hns. }
  split; [done|]. intros Hp. apply String.eqb_neq in Hp.
  by rewrite stored_upsert, String.eqb_refl, H1, Hp.
Qed.


End StoreFacts.

(** C2, the code at the failing input. On a store that has no dictionary
    for the kind yet, [delete] puts its tombstone in a dictionary filed
    under ["[object Object]"]: the version 5 it carried is forgotten, the
    upsert of version 3 that follows is accepted, and the deleted item is
    live again. *)
Theorem delete_without_dictionary_forgets_version :
  let s := Store.upsert (Store.delete Store.new dataKind.features "k" 5)
                        dataKind.features (versioned "k" 3) in
  Store.allData (Store.delete Store.new dataKind.features "k" 5)
  = {[ "[object Object]" := {[ "k" := Object (Store.deletedItem 5) ]} ]}
  /\ Store.get s dataKind.features "k" = Some (versioned "k" 3)
  /\ stored_version s dataKind.features "k" = Some 3
  /\ fold_left (observe "k") [Delete "k" 5; Upsert (versioned "k" 3)] None = Some 5.
Proof. repeat split; reflexivity. Qed.




(** C10. For every kind and key whose stored entry is [null]: after an
    upsert of any item the entry is still [null], and an upsert of an item
    with that key leaves the whole store unchanged; whereas a delete with
    any version [v] replaces the entry with the tombstone
    [{ version: v, deleted: true }], an object without key whose version
    is [v] and which is marked deleted, so that [v] is the version
    retained and [get] returns [null]. *)
Theorem null_entry_upsert_delete (s : Store.t) (k : kind) (name : string)
    (items : gmap string entry) :
  Store.allData s !! dataKind.namespace k = Some items ->
  items !! name = Some Null ->
  (forall it, stored (Store.upsert s k it) k name = Some Null)
  /\ (forall it, Store.property_name (key it) = name -> Store.upsert s k it = s)
  /\ (forall v,
        Store.delete s k name v
        = Store.Store (<[dataKind.namespace k :=
                           <[name := Object (Store.deletedItem v)]> items]>
                         (Store.allData s))
                      (Store.initCalled s)
        /\ exists o,
             stored (Store.delete s k name v) k name = Some (Object o)
             /\ version o = v /\ deleted o = true /\ key o = Js.Absent
             /\ stored_version (Store.delete s k name v) k name = Some v
             /\ Store.get (Store.delete s k name v) k name = None).
Proof.
  intros Hns Hk.
  assert (stored s k name = Some Null) as Hst.
  { unfold stored. by rewrite Hns. }
  split; [|split].
  - intros it. rewrite stored_upsert, Hst. by destruct (String.eqb _ name).
  - intros it Hit. unfold Store.upsert. rewrite Hit, Hns. simpl. rewrite Hk.
    rewrite insert_id by done. by destruct s.
  - intros v. split.
    + unfold Store.delete. by rewrite Hns, Hk.
    + exists (Store.deletedItem v).
      assert (stored (Store.delete s k name v) k name
              = Some (Object (Store.deletedItem v))) as E.
      { rewrite stored_delete by (by exists items).
        by rewrite String.eqb_refl, Hst. }
      split; [done|]. rewrite get_stored. unfold stored_version. by rewrite E.
Qed.

Lemma null_entry_upsert_delete_witness :
  Store.upsert nullStore dataKind.features (versioned "foo" 7) = nullStore
  /\ Store.get (Store.upsert nullStore dataKind.features (versioned "foo" 7))
               dataKind.features "foo" = None
  /\ stored (Store.delete nullStore dataKind.features "foo" 7) dataKind.features "foo"
     = Some (Object (Store.deletedItem 7))
  /\ stored_version (Store.delete nullStore dataKind.features "foo" 7)
                    dataKind.features "foo" = Some 7.
Proof.
  destruct (null_entry_upsert_delete nullStore dataKind.features "foo"
              {[ "foo" := Null ]} eq_refl eq_refl) as (_ & Hu & Hd).
  destruct (Hd 7) as (E & o & _ & _ & _ & _ & Hv & _).
  rewrite (Hu (versioned "foo" 7) eq_refl).
  split; [reflexivity|split; [reflexivity|split; [|exact Hv]]].
  rewrite E. reflexivity.
Defined.

(** The tests of the store, replayed. *)

Example store_gets_existing :
  Store.get initedStore dataKind.features "foo" = Some (versioned "foo" 10)
  /\ Store.get initedStore dataKind.features "biz" = None.
Proof. split; reflexivity. Qed.

Example store_upserts_newer_not_older :
  Store.get (Store.upsert initedStore dataKind.features (versioned "foo" 11))
            dataKind.features "foo" = Some (versioned "foo" 11)
  /\ Store.get (Store.upsert initedStore dataKind.features (versioned "foo" 9))
               dataKind.features "foo" = Some (versioned "foo" 10)
  /\ Store.get (Store.upsert initedStore dataKind.features (versioned "biz" 99))
               dataKind.features "biz" = Some (versioned "biz" 99).
Proof. repeat split; reflexivity. Qed.

Example store_deletes_newer_not_older :
  Store.get (Store.delete initedStore dataKind.features "foo" 11)
            dataKind.features "foo" = None
  /\ Store.get (Store.delete initedStore dataKind.features "foo" 9)
               dataKind.features "foo" = Some (versioned "foo" 10)
  /\ Store.get (Store.delete initedStore dataKind.features "biz" 99)
               dataKind.features "biz" = None.
Proof. repeat split; reflexivity. Qed.

Example store_no_upsert_after_delete :
  Store.get (Store.upsert (Store.delete initedStore dataKind.features "foo" 11)
                          dataKind.features (versioned "foo" 10))
            dataKind.features "foo" = None.
Proof. reflexivity. Qed.

(** The lost tombstone, as the stream can produce it: the segment deleted at
    version 5 is live at version 3 after the patch. *)
Example stream_patch_after_delete :
  Store.get
    (StreamProcessor.featureStore
       (StreamProcessor.run isHttpErrorRecoverable
          (StreamProcessor.start Store.new) segmentDeletedThenPatched))
    dataKind.segments "s"
  = Some (versioned "s" 3).
Proof. reflexivity. Qed.

(* ===================================================================== *)
(** ** The evaluation engine                                              *)
(* ===================================================================== *)

Lemma allClausesMatch_iff ops (cs : list clause) (u : user) (s : Store.t) :
  allClausesMatch ops cs u s = true
  <-> forall c, In c cs -> clauseMatchUser ops c u s = true.
Proof.
  induction cs as [|c cs IH]; simpl.
  - split; [intros _ c []|done].
  - destruct (clauseMatchUser ops c u s) eqn:E; simpl.
    + rewrite IH. split.
      * intros H c' [<-|Hin]; [done|by apply H].
      * intros H c' Hin. apply H. by right.
    + split; [done|]. intros H. rewrite <- E. apply H. by left.
Qed.

(** C4, as the code has it. For every rule, user and store: the rule
    matches the user if and only if the rule has a clauses list and every
    clause in it matches the user; a rule whose clauses list is empty
    matches every user. *)
Theorem ruleMatchUser_iff ops (r : rule) (u : user) (s : Store.t) :
  ruleMatchUser ops r u s = true
  <-> exists cs, rule_clauses r = Some cs
                 /\ forall c, In c cs -> clauseMatchUser ops c u s = true.
Proof.
  unfold ruleMatchUser. destruct (rule_clauses r) as [cs|].
  - rewrite allClausesMatch_iff. split; [eauto|]. by intros (cs' & [= <-] & H).
  - split; [done|]. by intros (cs' & ? & _).
Qed.

(** C4 as stated fails for the rule [{ id: 'r0', clauses: [], variation: 0 }]:
    its clauses list is empty and it matches the user. *)
Lemma rule_without_clauses_matches :
  rule_clauses rule_without_clauses = Some []
  /\ ruleMatchUser no_operators rule_without_clauses someUser Store.new = true.
Proof. split; reflexivity. Qed.

Lemma is_builtin_In (attr : string) : is_builtin attr = true <-> In attr builtins.
Proof.
  unfold is_builtin. rewrite existsb_exists. split.
  - intros (x & Hin & E). apply String.eqb_eq in E. by subst.
  - intros Hin. exists attr. split; [done|apply String.eqb_refl].
Qed.

(** C5, as the code has it. The built-in names are [key, ip, country,
    email, firstName, lastName, avatar, name, anonymous]; [secondary] is
    not one of them. For a built-in name that the user record itself
    carries, the lookup yields the top-level value. For every other name,
    and for a built-in name the record does not carry, it yields the value
    from [user.custom]; when that has none either, it yields null. *)
Theorem userValue_lookup (u : user) (attr : string) :
  (forall v, In attr builtins -> props u !! attr = Some v -> userValue u attr = v)
  /\ (~ In attr builtins \/ props u !! attr = None ->
      userValue u attr =
      match custom u with
      | Some c => default Js.Null (c !! attr)
      | None => Js.Null
      end)
  /\ builtins = ["key"; "ip"; "country"; "email"; "firstName"; "lastName";
                 "avatar"; "name"; "anonymous"].
Proof.
  split; [|split].
  - intros v Hin Hv. unfold userValue. apply is_builtin_In in Hin. by rewrite Hin, Hv.
  - intros H. unfold userValue.
    assert ((if is_builtin attr then props u !! attr else None) = None) as ->.
    { destruct (is_builtin attr) eqn:E; [|done]. apply is_builtin_In in E.
      by destruct H. }
    destruct (custom u) as [c|]; [|done]. by destruct (c !! attr).
  - reflexivity.
Qed.

Lemma userValue_lookup_witness :
  userValue someUser "key" = Js.Str "user"
  /\ userValue customNameUser "legs" = Js.Null.
Proof.
  split.
  - apply (proj1 (userValue_lookup someUser "key")).
    + simpl. tauto.
    + reflexivity.
  - apply (proj1 (proj2 (userValue_lookup customNameUser "legs"))).
    right. reflexivity.
Defined.

(** C5 as stated fails twice: the built-in [name], absent from the top
    level of [{ key: 'u', custom: { name: 'Bob' } }], resolves from
    [custom]; and [secondary], present at the top level of
    [{ key: 'u', secondary: 's' }], resolves to null. *)
Lemma userValue_not_top_level_only :
  userValue customNameUser "name" = Js.Str "Bob"
  /\ userValue secondaryUser "secondary" = Js.Null.
Proof. split; reflexivity. Qed.

(** C6, as the code has it. For every flag (present or missing), store and
    event factory: when the user is missing, or [user.key] is null or
    undefined, [evaluate] returns [err = null], the detail
    [{ value: null, variationIndex: null, reason: ERROR USER_NOT_SPECIFIED }]
    and no events; for every user whose key is neither null nor undefined
    (the empty string included), [evaluate] with a missing flag returns
    [err = null], the detail of [FLAG_NOT_FOUND] and no events. *)
Theorem evaluate_preconditions {event} ops (factory : eventFactory event)
    (stack : nat) (flag : option item) (u : option user) (s : Store.t) :
  (key_specified u = false ->
   evaluate ops factory stack flag u s
   = Js.Ok (Evaluation None (Detail Js.Null None (ERROR "USER_NOT_SPECIFIED")) []))
  /\ (key_specified u = true ->
      evaluate ops factory stack None u s
      = Js.Ok (Evaluation None (Detail Js.Null None (ERROR "FLAG_NOT_FOUND")) [])).
Proof.
  unfold key_specified, evaluate. destruct u as [usr|]; [|by split].
  destruct (Js.nullish _); by split.
Qed.

Lemma evaluate_preconditions_witness :
  evaluate no_operators unit_events 1 (Some flag_off) None Store.new
  = Js.Ok (Evaluation None (Detail Js.Null None (ERROR "USER_NOT_SPECIFIED")) [])
  /\ evaluate no_operators unit_events 1 None (Some blankKeyUser) Store.new
     = Js.Ok (Evaluation None (Detail Js.Null None (ERROR "FLAG_NOT_FOUND")) []).
Proof.
  split.
  - apply (proj1 (evaluate_preconditions no_operators unit_events 1 (Some flag_off)
                    None Store.new)).
    reflexivity.
  - apply (proj2 (evaluate_preconditions no_operators unit_events 1 None
                    (Some blankKeyUser) Store.new)).
    reflexivity.
Defined.

(** C6 as stated fails for the user [{ key: '' }]: the key is empty, and
    the flag is evaluated all the same (here to its off variation). *)
Lemma evaluate_blank_key :
  evaluate no_operators unit_events 1 (Some flag_off) (Some blankKeyUser) Store.new
  = Js.Ok (Evaluation None (Detail (Js.Str "b") (Some 1) OFF) []).
Proof. reflexivity. Qed.

(** The loop over the weighted variations returns the variation of the
    first running total above the bucket, and nothing when there is none. *)
Lemma firstBucket_spec (b : Q) (vs : list weightedVariation) (sum : F64.t) :
  match firstBucket b sum vs with
  | Some v =>
      exists i w, vs !! i = Some w /\ v = wv_variation w
                  /\ below b (cumulative_from sum (take (S i) vs))
                  /\ forall j, (j < i)%nat ->
                               ~ below b (cumulative_from sum (take (S j) vs))
  | None =>
      forall j, (j < length vs)%nat ->
                ~ below b (cumulative_from sum (take (S j) vs))
  end.
Proof.
  revert sum. induction vs as [|w vs IH]; intros sum; cbn [firstBucket].
  - intros j Hj. simpl in Hj. lia.
  - set (sum' := F64.add sum (F64.div (F64.of_Z (wv_weight w)) (F64.of_Z 100000))).
    destruct (F64.ltb (F64.Finite b) sum') eqn:E.
    + exists 0%nat, w. split; [done|]. split; [done|]. split; [exact E|].
      intros j Hj. lia.
    + specialize (IH sum').
      destruct (firstBucket b sum' vs) as [v|].
      * destruct IH as (i & w' & Hi & -> & Hlt & Hmin).
        exists (S i), w'. split; [done|]. split; [done|]. split; [exact Hlt|].
        intros [|j] Hj.
        -- change (cumulative_from sum (take 1 (w :: vs))) with sum'.
           unfold below. by rewrite E.
        -- apply (Hmin j). lia.
      * intros [|j] Hj.
        -- change (cumulative_from sum (take 1 (w :: vs))) with sum'.
           unfold below. by rewrite E.
        -- apply (IH j). simpl in Hj. lia.
Qed.

Lemma last_lookup (vs : list weightedVariation) (w0 : weightedVariation) :
  vs <> [] -> List.last vs w0 = default w0 (vs !! (length vs - 1)%nat).
Proof.
  induction vs as [|w vs IH]; [done|]. intros _. destruct vs as [|w' vs]; [done|].
  change (List.last (w :: w' :: vs) w0) with (List.last (w' :: vs) w0).
  rewrite IH by done. simpl. by rewrite Nat.sub_0_r.
Qed.

(** C7, as the code has it. For every VariationOrRollout [r], user and
    flag: if [r.variation] is present the resolved index is [r.variation];
    else if [r.rollout.variations] is non-empty, with
    [b = bucket(user, flag.key, rollout.bucketBy || 'key', flag.salt)]
    (an absent or empty [bucketBy] is replaced by ['key']) and the running
    total [sum += w.weight / 100000] over the variations in order, each
    quotient and each sum a double, the result is the variation of the
    first [w] whose running total exceeds [b], and the last variation when
    no running total does; else the result is
    [err = 'Variation/rollout object with no variation or rollout'] with
    the detail of [MALFORMED_FLAG]. *)
Theorem variationForUser_resolution (r : variationOrRollout) (u : user) (flag : item) :
  (forall v, vr_variation r = Some v -> variationForUser r u flag = Some v)
  /\ (forall ro vs,
        vr_variation r = None -> vr_rollout r = Some ro ->
        ro_variations ro = Some vs -> vs <> [] ->
        let b := bucketUser u (key flag) (bucketBy_or_key ro) (salt flag) in
        (forall i w,
            vs !! i = Some w ->
            below b (cumulative (take (S i) vs)) ->
            (forall j, (j < i)%nat -> ~ below b (cumulative (take (S j) vs))) ->
            variationForUser r u flag = Some (wv_variation w))
        /\ ((forall j, (j < length vs)%nat -> ~ below b (cumulative (take (S j) vs))) ->
            exists w, vs !! (length vs - 1)%nat = Some w
                      /\ variationForUser r u flag = Some (wv_variation w)))
  /\ (vr_variation r = None ->
      (forall ro, vr_rollout r = Some ro ->
                  ro_variations ro = None \/ ro_variations ro = Some []) ->
      forall rs,
        getResultForVariationOrRollout (Some r) u flag rs
        = Js.Ok (Outcome
                   (Some "Variation/rollout object with no variation or rollout")
                   (Detail Js.Null None (ERROR "MALFORMED_FLAG")))).
Proof.
  split; [|split].
  - intros v Hv. unfold variationForUser. by rewrite Hv.
  - intros ro vs Hv Hro Hvs Hne b. unfold variationForUser. rewrite Hv, Hro, Hvs.
    destruct vs as [|w0 ws]; [done|].
    fold (bucketBy_or_key ro). fold b.
    pose proof (firstBucket_spec b (w0 :: ws) (F64.Finite 0)) as Hspec.
    fold cumulative in Hspec.
    split.
    + intros i w Hi Hlt Hmin.
      destruct (firstBucket b (F64.Finite 0) (w0 :: ws)) as [v|].
      * destruct Hspec as (i' & w' & Hi' & -> & Hlt' & Hmin').
        destruct (lt_eq_lt_dec i i') as [[Hc|<-]|Hc].
        -- by destruct (Hmin' i Hc).
        -- congruence.
        -- by destruct (Hmin i' Hc).
      * destruct (Hspec i); [|done]. by apply lookup_lt_Some in Hi.
    + intros Hall.
      destruct (firstBucket b (F64.Finite 0) (w0 :: ws)) as [v|].
      * destruct Hspec as (i' & w' & Hi' & -> & Hlt' & Hmin').
        destruct (Hall i'); [|done]. by apply lookup_lt_Some in Hi'.
      * rewrite last_lookup by done.
        destruct (lookup_lt_is_Some_2 (w0 :: ws) (length (w0 :: ws) - 1)%nat)
          as [w Hw].
        { simpl. lia. }
        exists w. split; [done|]. by rewrite Hw.
  - intros Hv Hro rs. unfold getResultForVariationOrRollout, variationForUser.
    rewrite Hv. destruct (vr_rollout r) as [ro|]; [|done].
    by destruct (Hro ro eq_refl) as [-> | ->].
Qed.

Lemma variationForUser_resolution_witness :
  variationForUser (VariationOrRollout (Some 2) None) someUser flag_off = Some 2
  /\ variationForUser rollout_by_key userKeyA (hashFlag rollout_by_key) = Some 1
  /\ variationForUser rollout_too_short userKeyA (hashFlag rollout_too_short) = Some 0
  /\ getResultForVariationOrRollout (Some (VariationOrRollout None None)) someUser
       flag_off FALLTHROUGH
     = Js.Ok (Outcome
                (Some "Variation/rollout object with no variation or rollout")
                (Detail Js.Null None (ERROR "MALFORMED_FLAG"))).
Proof.
  split; [|split; [|split]].
  - apply (proj1 (variationForUser_resolution (VariationOrRollout (Some 2) None)
                    someUser flag_off)).
    reflexivity.
  - refine (proj1 (proj1 (proj2 (variationForUser_resolution rollout_by_key userKeyA
                                   (hashFlag rollout_by_key)))
                     (Rollout (Some [WeightedVariation 0 10000;
                                     WeightedVariation 1 90000]) None)
                     [WeightedVariation 0 10000; WeightedVariation 1 90000]
                     eq_refl eq_refl eq_refl _)
                  1%nat (WeightedVariation 1 90000) eq_refl _ _).
    + discriminate.
    + vm_compute. reflexivity.
    + intros j Hj. assert (j = 0%nat) as -> by lia.
      intros H. vm_compute in H. discriminate H.
  - destruct (proj2 (proj1 (proj2 (variationForUser_resolution rollout_too_short
                                     userKeyA (hashFlag rollout_too_short)))
                       (Rollout (Some [WeightedVariation 0 10000]) None)
                       [WeightedVariation 0 10000]
                       eq_refl eq_refl eq_refl ltac:(discriminate)))
      as (w & Hw & Hv).
    + intros j Hj. assert (j = 0%nat) as -> by (simpl in Hj; lia).
      intros H. vm_compute in H. discriminate H.
    + injection Hw as <-. exact Hv.
  - apply (proj2 (proj2 (variationForUser_resolution (VariationOrRollout None None)
                           someUser flag_off))).
    + reflexivity.
    + intros ro H. discriminate H.
Defined.

(** C7 as stated fails for a rollout with [bucketBy: '']: the code buckets
    the user by ['key'] and lands in the second variation, where
    [rollout.bucketBy ?? 'key'] buckets by the attribute [''], which the
    user does not have, and lands in the first. *)
Lemma variationForUser_empty_bucketBy :
  variationForUser rollout_by_empty userKeyA (hashFlag rollout_by_empty) = Some 1
  /\ variationForUser_as_specified rollout_by_empty userKeyA
       (hashFlag rollout_by_empty) = Some 0.
Proof. split; vm_compute; reflexivity. Qed.

(** The running sum is a sum of doubles. [0.1 + 0.7] is
    [0.7999999999999999], the double right below [0.8]: a bucket of that
    very value is not below the sum of the first two weights, so the third
    entry is chosen, although the bucket is below [80000/100000]. *)
Example firstBucket_sums_doubles :
  let b := (7205759403792793 # 9007199254740992)%Q in
  let vs := [WeightedVariation 0 10000; WeightedVariation 1 70000;
             WeightedVariation 2 20000] in
  firstBucket b (F64.Finite 0) vs = Some 2
  /\ cumulative (take 2 vs) = F64.Finite b
  /\ (b < 80000 # 100000)%Q.
Proof. split; [|split]; vm_compute; reflexivity. Qed.

(** The rollout of the engine's own test: a bucket of one hundred
    thousandth just above the user's value selects the middle variation. *)
Example rollout_selects_bucket :
  variationForUser
    (VariationOrRollout None
       (Some (Rollout (Some [WeightedVariation 0 42157; WeightedVariation 1 1;
                             WeightedVariation 2 57842]) None)))
    userKeyA (hashFlag (VariationOrRollout None None)) = Some 1.
Proof. vm_compute. reflexivity. Qed.

(** The tests of the engine that need no operator, replayed. *)

Example evaluate_off :
  evaluate no_operators recording_events 8 (Some (test_flag_off (Some 1)))
           (Some someUser) Store.new
  = Js.Ok (Evaluation None (Detail (Js.Str "b") (Some 1) OFF) [])
  /\ evaluate no_operators recording_events 8 (Some (test_flag_off None))
              (Some someUser) Store.new
     = Js.Ok (Evaluation None (Detail Js.Null None OFF) [])
  /\ evaluate no_operators recording_events 8 (Some (test_flag_off (Some 99)))
              (Some someUser) Store.new
     = Js.Ok (Evaluation (Some "Invalid variation index in flag")
                         (Detail Js.Null None (ERROR "MALFORMED_FLAG")) [])
  /\ evaluate no_operators recording_events 8 (Some (test_flag_off (Some (-1))))
              (Some someUser) Store.new
     = Js.Ok (Evaluation (Some "Invalid variation index in flag")
                         (Detail Js.Null None (ERROR "MALFORMED_FLAG")) []).
Proof. repeat split; reflexivity. Qed.

Example evaluate_prerequisite_not_found :
  evaluate no_operators recording_events 8 (Some feature0) (Some someUser) Store.new
  = Js.Ok (Evaluation None
             (Detail (Js.Str "b") (Some 1) (PREREQUISITE_FAILED "feature1")) []).
Proof. reflexivity. Qed.

Example evaluate_prerequisite_off :
  evaluate no_operators recording_events 8 (Some feature0) (Some someUser)
           (defineFeatures [feature0; feature1 false (Some 1) 0])
  = Js.Ok (Evaluation None
             (Detail (Js.Str "b") (Some 1) (PREREQUISITE_FAILED "feature1"))
             [PrereqEvent (Js.Present "feature1") 2 (Some 1) (Js.Str "e")
                          (Js.Present "feature0")]).
Proof. reflexivity. Qed.

Example evaluate_prerequisite_not_met :
  evaluate no_operators recording_events 8 (Some feature0) (Some someUser)
           (defineFeatures [feature0; feature1 true None 0])
  = Js.Ok (Evaluation None
             (Detail (Js.Str "b") (Some 1) (PREREQUISITE_FAILED "feature1"))
             [PrereqEvent (Js.Present "feature1") 2 (Some 0) (Js.Str "d")
                          (Js.Present "feature0")]).
Proof. reflexivity. Qed.

Example evaluate_prerequisite_met :
  evaluate no_operators recording_events 8 (Some feature0) (Some someUser)
           (defineFeatures [feature0; feature1 true None 1])
  = Js.Ok (Evaluation None (Detail (Js.Str "a") (Some 0) FALLTHROUGH)
             [PrereqEvent (Js.Present "feature1") 2 (Some 1) (Js.Str "e")
                          (Js.Present "feature0")]).
Proof. reflexivity. Qed.

Example evaluate_target :
  evaluate no_operators recording_events 8 (Some targetFlag) (Some userkeyUser)
           Store.new
  = Js.Ok (Evaluation None (Detail (Js.Str "c") (Some 2) TARGET_MATCH) []).
Proof. reflexivity. Qed.

(** The bucket of ['userkey'] under ['flagkey'] and ['salt'] is 0.78120...:
    a rollout whose second bucket is the one hundred thousandth from
    78120 selects it, and a rollout that stops at 78120 falls back on its
    last variation. *)
Example evaluate_rollout :
  evaluate no_operators recording_events 8
           (Some (rolloutFlag [WeightedVariation 0 78120; WeightedVariation 1 1;
                               WeightedVariation 2 21879]))
           (Some userkeyUser) Store.new
  = Js.Ok (Evaluation None (Detail Js.Null (Some 1) FALLTHROUGH) [])
  /\ evaluate no_operators recording_events 8
              (Some (rolloutFlag [WeightedVariation 0 78120]))
              (Some userkeyUser) Store.new
     = Js.Ok (Evaluation None (Detail Js.Null (Some 0) FALLTHROUGH) []).
Proof. split; vm_compute; reflexivity. Qed.

(* ===================================================================== *)
(** ** The client's entry points                                          *)
(* ===================================================================== *)

Lemma getVariation_index_or_error (flag : item) (i : option Z) (r : reason)
    (o : outcome) :
  not_error r -> getVariation flag i r = Js.Ok o -> index_or_error (detail_of o).
Proof.
  intros Hr. unfold getVariation. destruct i as [i|]; [|by intros [= <-]].
  destruct (i <? 0); [by intros [= <-]|].
  destruct (variations flag) as [vs|]; [|done].
  destruct (_ <=? i); intros [= <-]; [done|].
  intros k. simpl. intros E. by destruct (Hr k).
Qed.

Lemma getOffResult_index_or_error (flag : item) (r : reason) (o : outcome) :
  not_error r -> getOffResult flag r = Js.Ok o -> index_or_error (detail_of o).
Proof.
  intros Hr. unfold getOffResult. destruct (offVariation flag).
  - by apply getVariation_index_or_error.
  - intros [= <-] k. simpl. intros E. by destruct (Hr k).
Qed.

Lemma getResult_index_or_error r (u : user) (flag : item) (rs : reason)
    (o : outcome) :
  not_error rs ->
  getResultForVariationOrRollout r u flag rs = Js.Ok o ->
  index_or_error (detail_of o).
Proof.
  intros Hr. unfold getResultForVariationOrRollout.
  destruct r as [r|]; [|by intros [= <-]].
  destruct (variationForUser r u flag); [|by intros [= <-]].
  by apply getVariation_index_or_error.
Qed.

Lemma evalRules_index_or_error ops (flag : item) (u : user) (s : Store.t)
    (o : outcome) :
  evalRules ops flag u s = Js.Ok o -> index_or_error (detail_of o).
Proof.
  unfold evalRules. destruct (firstTarget _ u).
  - by apply getVariation_index_or_error.
  - destruct (firstRule ops _ u s); by apply getResult_index_or_error.
Qed.

Lemma checkPrerequisitesLoop_reason {event} (factory : eventFactory event)
    ev ps flag u s events e r events' :
  checkPrerequisitesLoop factory ev ps flag u s events = Js.Ok (Some (e, r), events') ->
  not_error r.
Proof.
  revert events. induction ps as [|p ps IH]; intros events; simpl; [done|].
  destruct (Store.get s dataKind.features (prereq_key p)) as [pf|].
  - destruct (ev pf events) as [[o evs]|]; simpl; [|done].
    destruct (err o).
    + by intros [= <- <- <-].
    + destruct (_ || _); [by intros [= <- <- <-]|]. apply IH.
  - by intros [= <- <- <-].
Qed.

Lemma evalInternal_index_or_error {event} ops (factory : eventFactory event)
    stack flag u s events o events' :
  evalInternal ops factory stack flag u s events = Js.Ok (o, events') ->
  index_or_error (detail_of o).
Proof.
  destruct stack as [|stack]; simpl; [done|].
  destruct (negb (on flag)).
  - destruct (getOffResult flag OFF) as [o'|] eqn:Eo; simpl; [|done].
    intros [= <- <-]. by eapply getOffResult_index_or_error; [|exact Eo].
  - destruct (checkPrerequisitesLoop _ _ _ _ _ _ _) as [[failed evs]|] eqn:E;
      simpl; [|done].
    destruct failed as [[e r]|].
    + destruct (getOffResult flag r) as [o'|] eqn:Eo; simpl; [|done].
      intros [= <- <-]. eapply getOffResult_index_or_error; [|exact Eo].
      by eapply checkPrerequisitesLoop_reason.
    + destruct (evalRules ops flag u s) as [o'|] eqn:Eo; simpl; [|done].
      intros [= <- <-]. by eapply evalRules_index_or_error.
Qed.

(** Whenever [variationDetail] does return a detail with an [ERROR]
    reason, its value is the caller's default. *)
Lemma variationDetail_error_default {event} ops (factory : eventFactory event)
    (c : Client.t) (name : string) (u : option user) (defaultVal : jsval)
    (d : detail) (k : string) :
  Client.returned (Client.variationDetail ops c name u defaultVal factory) = Some d ->
  reason_of d = ERROR k -> value d = defaultVal.
Proof.
  unfold Client.variationDetail, Client.evaluateIfPossible.
  assert (Client.returned (Client.variationInternal ops c name u defaultVal factory)
          = Some d ->
          reason_of d = ERROR k -> value d = defaultVal) as Hint.
  { unfold Client.variationInternal.
    destruct (Client.offline c); [by intros [= <-]|].
    destruct (String.eqb name EmptyString); [by intros [= <-]|].
    destruct (Store.get _ _ name) as [flag|]; [|by intros [= <-]].
    destruct u as [usr|]; [|by intros [= <-]].
    unfold evaluate.
    destruct (Js.nullish _).
    - simpl. by intros [= <-].
    - destruct (evalInternal _ _ _ _ _ _ _) as [[o evs]|] eqn:E; simpl; [|done].
      pose proof (evalInternal_index_or_error _ _ _ _ _ _ _ _ _ E) as Hio.
      destruct (variationIndex (detail_of o)) eqn:Ei; intros [= <-]; [|done].
      intros Hk. specialize (Hio k Hk). congruence. }
  destruct (negb (Client.initComplete c)); [|done].
  destruct (Store.initialized _); [done|]. by intros [= <-].
Qed.

(** A flag that is its own prerequisite exhausts the stack, however deep. *)
Lemma evalInternal_cycle {event} ops (factory : eventFactory event) (stack : nat)
    (u : user) (events : list event) :
  evalInternal ops factory stack selfPrerequisite u cyclicStore events
  = Js.Throw (Js.RangeError "Maximum call stack size exceeded").
Proof.
  revert events. induction stack as [|stack IH]; intros events; [done|].
  cbn [evalInternal]. change (on selfPrerequisite) with true. cbn [negb].
  change (default [] (prerequisites selfPrerequisite)) with [Prerequisite "a" 1].
  cbn [checkPrerequisitesLoop].
  change (Store.get cyclicStore dataKind.features (prereq_key (Prerequisite "a" 1)))
    with (Some selfPrerequisite).
  cbv beta iota. rewrite IH. reflexivity.
Qed.

(** C8, the code at the failing input. With the flag ['a'] that lists
    itself as its prerequisite in the store, evaluation throws; the
    [catch] block reports the error and returns nothing:
    [variationDetail('a', user, 'default')] returns [undefined] instead of
    a detail carrying ['default'], and [variation('a', user, 'default')]
    throws a [TypeError]. *)
Theorem variation_on_exception {event} ops (factory : eventFactory event)
    (stack : nat) :
  let c := Client.Client false true cyclicStore stack in
  Client.returned
    (Client.variationDetail ops c "a" (Some someUser) (Js.Str "default") factory)
  = None
  /\ Client.returned
       (Client.variation ops c "a" (Some someUser) (Js.Str "default") factory)
     = Js.Throw (Js.TypeError "Cannot read property 'value' of undefined").
Proof.
  assert (Client.returned
            (Client.variationDetail ops (Client.Client false true cyclicStore stack)
               "a" (Some someUser) (Js.Str "default") factory) = None) as H.
  { unfold Client.variationDetail, Client.evaluateIfPossible, Client.variationInternal.
    cbn [Client.initComplete Client.offline negb Client.featureStore Client.stack].
    change (String.eqb "a" EmptyString) with false. cbv iota.
    change (Store.get cyclicStore dataKind.features "a") with (Some selfPrerequisite).
    cbv iota beta. unfold evaluate.
    change (Js.nullish (default Js.Undefined (props someUser !! "key"))) with false.
    cbv iota. rewrite evalInternal_cycle. reflexivity. }
  split; [exact H|]. unfold Client.variation. cbn [Client.returned].
  unfold Client.variationDetail in H. by rewrite H.
Qed.

(* ===================================================================== *)
(** ** The streaming processor                                            *)
(* ===================================================================== *)

Section StreamFacts.

Variable recoverable : Z -> bool.


Lemma run_shut_down (st : SP.t) (inputs : list SP.input) :
  SP.shut_down st = true -> SP.run recoverable st inputs = st.
Proof. intros H. destruct inputs; simpl; [done|]. by rewrite H. Qed.


End StreamFacts.





(** A non-recoverable status ends the run: what follows is not handled. *)
Example stream_stops_after_401 :
  SP.invocations
    (SP.run isHttpErrorRecoverable (SP.start Store.new)
            [SP.error "Unauthorized" (Some 401); emptyPut])
  = [SP.cb_error "Unauthorized" (Some 401)].
Proof. reflexivity. Qed.
(* ===================================================================== *)
(** * Further properties                                                  *)
(* ===================================================================== *)

(* ===================================================================== *)
(** ** The store: reads after writes                                      *)
(* ===================================================================== *)

(** X1. [all] and [get] agree on every key but ['__proto__']: the object
    [all(kind)] returns has, as its own property under such a key, exactly
    what [get(kind, key)] returns. It never has an own property
    ['__proto__']: the item [get(kind, '__proto__')] returns, if any, has
    become its prototype. *)
Theorem all_agrees_with_get (s : Store.t) (k : kind) (name : string) :
  Store.own (Store.all s k) !! name
  = (if String.eqb name proto then None else Store.get s k name)
  /\ Store.prototype (Store.all s k) = Store.get s k proto.
Proof.
  unfold Store.all, Store.get, proto. cbn [Store.own Store.prototype]. split.
  - destruct (String.eqb_spec name "__proto__") as [->|Hne].
    + apply lookup_delete_eq.
    + rewrite lookup_delete_ne by done. rewrite lookup_omap.
      by destruct (_ !! name) as [[|it]|].
  - rewrite lookup_omap. by destruct (_ !! "__proto__") as [[|it]|].
Qed.

Lemma stored_upsert_other_kind (s : Store.t) (k k' : kind) (it : item)
    (name : string) :
  dataKind.namespace k' <> dataKind.namespace k ->
  stored (Store.upsert s k it) k' name = stored s k' name.
Proof.
  intros Hne. unfold stored, Store.upsert. simpl. by rewrite lookup_insert_ne.
Qed.

(** What a read of any kind and key shows after an upsert. *)
Lemma get_upsert (s : Store.t) (k k' : kind) (it : item) (name : string) :
  Store.get (Store.upsert s k it) k' name =
  if bool_decide (dataKind.namespace k' = dataKind.namespace k)
     && String.eqb (filed_under it) name
  then match stored s k name with
       | Some (Object o) => if version o <? version it then live it else live o
       | Some Null => None
       | None => if String.eqb name proto then None else live it
       end
  else Store.get s k' name.
Proof.
  rewrite !get_stored. case_bool_decide as Hk; simpl.
  - assert (forall t, stored t k' name = stored t k name) as E.
    { intros t. unfold stored. by rewrite Hk. }
    rewrite !E, stored_upsert. unfold filed_under, live.
    destruct (String.eqb _ name); [|done].
    destruct (stored s k name) as [[|o]|]; try done.
    + by destruct (version o <? version it).
    + by destruct (String.eqb name proto).
  - by rewrite stored_upsert_other_kind.
Qed.

(** X2. What [get] returns after an upsert. Under the key of the upserted
    item, in its kind: the item if an object of a lower version was stored,
    or if nothing was and the key is not ['__proto__'] (nothing if the item
    is itself marked deleted); nothing if nothing was stored and the key is
    ['__proto__'], which the assignment does not create; else what was
    there before. Under every other key and in every other kind: what was
    there before. *)
Theorem get_after_upsert (s : Store.t) (k k' : kind) (it : item) (name : string) :
  Store.get (Store.upsert s k it) k' name =
  if bool_decide (dataKind.namespace k' = dataKind.namespace k)
     && String.eqb (filed_under it) name
  then match stored s k name with
       | Some (Object o) => if version o <? version it then live it else live o
       | Some Null => None
       | None => if String.eqb name proto then None else live it
       end
  else Store.get s k' name.
Proof. apply get_upsert. Qed.

Example upsert_under_proto :
  Store.get (Store.upsert initedStore dataKind.features (versioned "__proto__" 1))
            dataKind.features "__proto__" = None
  /\ Store.get
       (Store.upsert
          (Store.init Store.new
             {[ "features" := {[ "__proto__" := Object (versioned "__proto__" 1) ]} ]})
          dataKind.features (versioned "__proto__" 2))
       dataKind.features "__proto__" = Some (versioned "__proto__" 2).
Proof. split; reflexivity. Qed.

(** What a delete leaves under a key of its kind, dictionary or not, as
    far as reads and version checks of that kind go. *)
Lemma get_delete_same_kind (s : Store.t) (k : kind) (name' : string) (v : Z)
    (name : string) :
  Store.get (Store.delete s k name' v) k name =
  if String.eqb name' name
  then match Store.get s k name with
       | Some it => if version it <? v then None else Some it
       | None => None
       end
  else Store.get s k name.
Proof.
  destruct (Store.allData s !! dataKind.namespace k) as [items|] eqn:Hns.
  - rewrite !get_stored, stored_delete by (by exists items).
    destruct (String.eqb name' name); [|done].
    destruct (stored s k name) as [[|o]|]; try done.
    + destruct (version o <? v) eqn:E; destruct (deleted o) eqn:D;
        simpl; rewrite ?D, ?E; done.
    + by destruct (String.eqb name proto).
  - assert (Store.get s k name = None) as ->.
    { unfold Store.get. by rewrite Hns. }
    assert (Store.get (Store.delete s k name' v) k name = None) as ->.
    { unfold Store.get, Store.delete. rewrite Hns. simpl.
      destruct (decide (Store.object_as_property_name = dataKind.namespace k))
        as [E|E].
      - rewrite <- E, lookup_insert_eq. simpl. unfold Store.create.
        destruct (String.eqb name' "__proto__"); [by rewrite lookup_empty|].
        destruct (decide (name' = name)) as [->|Hn].
        + by rewrite lookup_insert_eq.
        + by rewrite lookup_insert_ne.
      - rewrite lookup_insert_ne by done. by rewrite Hns. }
    by destruct (String.eqb name' name).
Qed.

(** X3. What [get] returns after a delete. Under the deleted key, in its
    kind: the item that was there if it was live with a version not below
    that of the delete, else nothing; under every other key, and in every
    other kind whose namespace is not ["[object Object]"], what was there
    before. *)
Theorem get_after_delete (s : Store.t) (k k' : kind) (name' : string) (v : Z)
    (name : string) :
  dataKind.namespace k' <> Store.object_as_property_name ->
  Store.get (Store.delete s k name' v) k' name =
  if bool_decide (dataKind.namespace k' = dataKind.namespace k)
     && String.eqb name' name
  then match Store.get s k name with
       | Some it => if version it <? v then None else Some it
       | None => None
       end
  else Store.get s k' name.
Proof.
  intros Hobj. case_bool_decide as Hk; simpl.
  - assert (forall t, Store.get t k' name = Store.get t k name) as E.
    { intros t. unfold Store.get. by rewrite Hk. }
    rewrite !E. apply get_delete_same_kind.
  - unfold Store.get, Store.delete.
    destruct (Store.allData s !! dataKind.namespace k); simpl;
      by rewrite lookup_insert_ne.
Qed.

Lemma get_after_delete_witness :
  Store.get (Store.delete initedStore dataKind.features "foo" 11)
            dataKind.features "foo" = None
  /\ Store.get (Store.delete initedStore dataKind.features "foo" 11)
               dataKind.features "bar" = Some (versioned "bar" 10)
  /\ Store.get (Store.delete initedStore dataKind.segments "foo" 11)
               dataKind.features "foo" = Some (versioned "foo" 10).
Proof.
  split; [|split].
  - rewrite (get_after_delete initedStore dataKind.features dataKind.features
               "foo" 11 "foo"); [reflexivity | discriminate].
  - rewrite (get_after_delete initedStore dataKind.features dataKind.features
               "foo" 11 "bar"); [reflexivity | discriminate].
  - rewrite (get_after_delete initedStore dataKind.segments dataKind.features
               "foo" 11 "foo"); [reflexivity | discriminate].
Defined.

(* ===================================================================== *)
(** ** The store: versions, repetition and order                          *)
(* ===================================================================== *)

Lemma observe_fold_lower_bound (name : string) (us : list update) : forall c : Z,
  exists v, fold_left (observe name) us (Some c) = Some v /\ c <= v.
Proof.
  induction us as [|u us IH]; intros c; simpl.
  - exists c. split; [done|lia].
  - unfold observe at 2. destruct (observed name u) as [w|].
    + destruct (IH (Z.max c w)) as (v & Hv & Hle). exists v. split; [done|lia].
    + apply IH.
Qed.

(** X4. The version retained for a key never decreases. Where an object
    (live or tombstone) of version [v0] is stored under the key, after any
    sequence of upserts and deletes of the kind the key still holds an
    object, and its version is the maximum of [v0] and of the versions
    that the updates about this key carried; it is at least [v0]. *)
Theorem retained_version_never_decreases (k : kind) (name : string)
    (us : list update) (s : Store.t) (v0 : Z) :
  stored_version s k name = Some v0 ->
  exists v,
    stored_version (fold_left (apply_update k) us s) k name = Some v
    /\ Some v = fold_left (observe name) us (Some v0)
    /\ v0 <= v.
Proof.
  intros H0.
  assert (has_dictionary s k) as Hd.
  { unfold stored_version, stored, has_dictionary in *.
    by destruct (Store.allData s !! dataKind.namespace k). }
  assert (exists o, stored s k name = Some (Object o)) as [o Ho].
  { unfold stored_version in H0. destruct (stored s k name) as [[|o]|]; by eauto. }
  rewrite (stored_version_is_max k name us s o Hd Ho), H0.
  destruct (observe_fold_lower_bound name us v0) as (v & Hv & Hle).
  exists v. by rewrite Hv.
Qed.

Lemma retained_version_never_decreases_witness :
  exists v,
    stored_version
      (fold_left (apply_update dataKind.features)
                 [Upsert (versioned "foo" 12); Delete "foo" 11;
                  Upsert (versioned "foo" 9)]
                 initedStore)
      dataKind.features "foo" = Some v
    /\ Some v = fold_left (observe "foo")
                          [Upsert (versioned "foo" 12); Delete "foo" 11;
                           Upsert (versioned "foo" 9)] (Some 10)
    /\ 10 <= v.
Proof.
  apply (retained_version_never_decreases dataKind.features "foo"
           [Upsert (versioned "foo" 12); Delete "foo" 11;
            Upsert (versioned "foo" 9)] initedStore 10).
  reflexivity.
Defined.

(** X5. Upsert and delete are idempotent: applying the same one twice
    leaves the store as applying it once. *)
Theorem upsert_delete_idempotent (s : Store.t) (k : kind) (it : item)
    (name : string) (v : Z) :
  Store.upsert (Store.upsert s k it) k it = Store.upsert s k it
  /\ Store.delete (Store.delete s k name v) k name v = Store.delete s k name v.
Proof.
  split.
  - unfold Store.upsert. simpl. rewrite lookup_insert_eq. simpl.
    set (items := default ∅ (Store.allData s !! dataKind.namespace k)).
    set (n := Store.property_name (key it)).
    f_equal.
    destruct (items !! n) as [[|o]|] eqn:E.
    + rewrite E. by rewrite insert_insert_eq.
    + destruct (version o <? version it) eqn:L.
      * rewrite lookup_insert_eq, Z.ltb_irrefl. by rewrite insert_insert_eq.
      * rewrite E, L. by rewrite insert_insert_eq.
    + unfold Store.create. destruct (String.eqb n "__proto__") eqn:P.
      * rewrite ?E, ?P. by rewrite insert_insert_eq.
      * rewrite lookup_insert_eq, Z.ltb_irrefl. by rewrite insert_insert_eq.
  - unfold Store.delete.
    destruct (Store.allData s !! dataKind.namespace k) as [items|] eqn:Hns; simpl.
    + rewrite lookup_insert_eq. f_equal.
      destruct (items !! name) as [[|o]|] eqn:E.
      * rewrite lookup_insert_eq. simpl. rewrite Z.ltb_irrefl.
        by rewrite insert_insert_eq.
      * destruct (version o <? v) eqn:L.
        -- rewrite lookup_insert_eq. simpl. rewrite Z.ltb_irrefl.
           by rewrite insert_insert_eq.
        -- rewrite E, L. by rewrite insert_insert_eq.
      * unfold Store.create. destruct (String.eqb name "__proto__") eqn:P.
        -- rewrite ?E, ?P. by rewrite insert_insert_eq.
        -- rewrite lookup_insert_eq. simpl. rewrite Z.ltb_irrefl.
           by rewrite insert_insert_eq.
    + destruct (decide (Store.object_as_property_name = dataKind.namespace k))
        as [E|E].
      * rewrite <- E, lookup_insert_eq. f_equal. unfold Store.create.
        destruct (String.eqb name "__proto__") eqn:P.
        -- rewrite lookup_empty, ?P. by rewrite insert_insert_eq.
        -- rewrite lookup_insert_eq. simpl. rewrite Z.ltb_irrefl.
           by rewrite !insert_insert_eq.
      * rewrite lookup_insert_ne by done. rewrite Hns. f_equal.
        by rewrite insert_insert_eq.
Qed.

(** X6. Two upserts of the same kind can be swapped without any read
    telling the difference, provided they are filed under different keys
    or carry different versions. (With equal keys and versions the first
    one applied is the one retained.) *)
Theorem upserts_commute (s : Store.t) (k : kind) (a b : item) :
  filed_under a <> filed_under b \/ version a <> version b ->
  forall (k' : kind) (name : string),
    Store.get (Store.upsert (Store.upsert s k a) k b) k' name
    = Store.get (Store.upsert (Store.upsert s k b) k a) k' name.
Proof.
  intros H k' name. rewrite !get_upsert, !stored_upsert.
  unfold filed_under in *.
  destruct (bool_decide (dataKind.namespace k' = dataKind.namespace k)); simpl;
    [|done].
  destruct (String.eqb_spec (Store.property_name (key a)) name) as [Ea|Ea];
    destruct (String.eqb_spec (Store.property_name (key b)) name) as [Eb|Eb];
    try done.
  assert (version a <> version b) as Hv by (destruct H; congruence).
  destruct (stored s k name) as [[|o]|]; try done;
    try (destruct (String.eqb name proto); try done);
    repeat match goal with
           | |- context [?x <? ?y] => destruct (Z.ltb_spec x y)
           end;
    try done; lia.
Qed.

Lemma upserts_commute_witness :
  Store.get (Store.upsert (Store.upsert initedStore dataKind.features
                                        (versioned "foo" 12))
                          dataKind.features (versioned "foo" 11))
            dataKind.features "foo"
  = Store.get (Store.upsert (Store.upsert initedStore dataKind.features
                                          (versioned "foo" 11))
                            dataKind.features (versioned "foo" 12))
              dataKind.features "foo".
Proof.
  apply (upserts_commute initedStore dataKind.features (versioned "foo" 12)
           (versioned "foo" 11)).
  right. simpl. lia.
Defined.

(* ===================================================================== *)
(** ** The engine: what an evaluation can return                          *)
(* ===================================================================== *)

Lemma getVariation_coherent (flag : item) (i : option Z) (r : reason)
    (o : outcome) :
  getVariation flag i r = Js.Ok o -> coherent flag o.
Proof.
  unfold coherent, getVariation. destruct i as [i|]; [|by intros [= <-]; split].
  destruct (Z.ltb_spec i 0); [by intros [= <-]; split|].
  destruct (variations flag) as [vs|]; [|done]. cbn [default from_option id].
  destruct (Z.leb_spec (Z.of_nat (length vs)) i); intros [= <-]; [by split|].
  simpl. split; [|done]. repeat split; try lia.
  destruct (lookup_lt_is_Some_2 vs (Z.to_nat i)) as [x Hx]; [lia|].
  rewrite Hx. f_equal. symmetry. by apply nth_lookup_Some.
Qed.

Lemma getOffResult_coherent (flag : item) (r : reason) (o : outcome) :
  getOffResult flag r = Js.Ok o -> coherent flag o.
Proof.
  unfold getOffResult. destruct (offVariation flag).
  - apply getVariation_coherent.
  - by intros [= <-]; split.
Qed.

Lemma getResult_coherent r (u : user) (flag : item) (rs : reason) (o : outcome) :
  getResultForVariationOrRollout r u flag rs = Js.Ok o -> coherent flag o.
Proof.
  unfold getResultForVariationOrRollout.
  destruct r as [r|]; [|by intros [= <-]; split].
  destruct (variationForUser r u flag); [|by intros [= <-]; split].
  apply getVariation_coherent.
Qed.

Lemma evalRules_coherent ops (flag : item) (u : user) (s : Store.t) (o : outcome) :
  evalRules ops flag u s = Js.Ok o -> coherent flag o.
Proof.
  unfold evalRules. destruct (firstTarget _ u).
  - apply getVariation_coherent.
  - destruct (firstRule ops _ u s); apply getResult_coherent.
Qed.

Lemma evalInternal_coherent {event} ops (factory : eventFactory event)
    stack flag u s events o events' :
  evalInternal ops factory stack flag u s events = Js.Ok (o, events') ->
  coherent flag o.
Proof.
  destruct stack as [|stack]; simpl; [done|].
  destruct (negb (on flag)).
  - destruct (getOffResult flag OFF) as [o'|] eqn:Eo; simpl; [|done].
    intros [= <- <-]. by eapply getOffResult_coherent.
  - destruct (checkPrerequisitesLoop _ _ _ _ _ _ _) as [[failed evs]|]; simpl; [|done].
    destruct failed as [[e r]|].
    + destruct (getOffResult flag r) as [o'|] eqn:Eo; simpl; [|done].
      intros [= <- <-]. by eapply getOffResult_coherent.
    + destruct (evalRules ops flag u s) as [o'|] eqn:Eo; simpl; [|done].
      intros [= <- <-]. by eapply evalRules_coherent.
Qed.

(** X7. Whatever [evaluate] returns for a flag is coherent: a variation
    index comes with no error, lies within [flag.variations] and selects
    the returned value; without an index the value is null; and an error
    always comes with the detail of [MALFORMED_FLAG]. *)
Theorem evaluate_coherent {event} ops (factory : eventFactory event) (stack : nat)
    (flag : item) (u : option user) (s : Store.t) (ev : evaluation) :
  evaluate ops factory stack (Some flag) u s = Js.Ok ev ->
  coherent flag (Outcome (ev_err ev) (ev_detail ev)).
Proof.
  unfold evaluate. destruct u as [usr|]; [|by intros [= <-]; split].
  destruct (Js.nullish _); [by intros [= <-]; split|].
  destruct (evalInternal _ _ _ _ _ _ _) as [[o evs]|] eqn:E; simpl; [|done].
  intros [= <-]. simpl. apply evalInternal_coherent in E. by destruct o.
Qed.

Lemma evaluate_coherent_witness :
  coherent targetFlag
    (Outcome None (Detail (Js.Str "c") (Some 2) TARGET_MATCH)).
Proof.
  apply (evaluate_coherent no_operators recording_events 8 targetFlag
           (Some userkeyUser) Store.new
           (Evaluation None (Detail (Js.Str "c") (Some 2) TARGET_MATCH) [])).
  reflexivity.
Defined.

(* ===================================================================== *)
(** ** The engine: the call stack                                         *)
(* ===================================================================== *)

Lemma checkPrerequisitesLoop_mono {event} (factory : eventFactory event)
    (ev ev' : item -> list event -> Js.result (outcome * list event))
    ps flag u s events r :
  (forall f evs x, ev f evs = Js.Ok x -> ev' f evs = Js.Ok x) ->
  checkPrerequisitesLoop factory ev ps flag u s events = Js.Ok r ->
  checkPrerequisitesLoop factory ev' ps flag u s events = Js.Ok r.
Proof.
  intros Hev. revert events. induction ps as [|p ps IH]; intros events; simpl; [done|].
  destruct (Store.get s dataKind.features (prereq_key p)) as [pf|]; [|done].
  destruct (ev pf events) as [[o evs]|] eqn:E; simpl; [|done].
  rewrite (Hev _ _ _ E). simpl.
  destruct (err o); [done|]. destruct (_ || _); [done|]. apply IH.
Qed.

Lemma evalInternal_mono {event} ops (factory : eventFactory event)
    (n m : nat) flag u s events r :
  (n <= m)%nat ->
  evalInternal ops factory n flag u s events = Js.Ok r ->
  evalInternal ops factory m flag u s events = Js.Ok r.
Proof.
  revert m flag events r. induction n as [|n IH]; intros m flag events r Hle; [done|].
  destruct m as [|m]; [lia|]. cbn [evalInternal].
  destruct (negb (on flag)); [done|].
  destruct (checkPrerequisitesLoop factory
              (fun f evs => evalInternal ops factory n f u s evs) _ _ _ _ _)
    as [x|] eqn:E; cbn [Js.bind]; [|done].
  erewrite checkPrerequisitesLoop_mono; [|  |exact E]; [done|].
  intros f evs y Hy. apply IH; [lia|done].
Qed.

(** X8. More stack never changes a result: if [evaluate] returns with a
    given depth of stack, it returns the same with any greater depth. *)
Theorem evaluate_stack_monotone {event} ops (factory : eventFactory event)
    (n m : nat) (flag : option item) (u : option user) (s : Store.t)
    (ev : evaluation) :
  (n <= m)%nat ->
  evaluate ops factory n flag u s = Js.Ok ev ->
  evaluate ops factory m flag u s = Js.Ok ev.
Proof.
  intros Hle. unfold evaluate. destruct u as [usr|]; [|done].
  destruct (Js.nullish _); [done|]. destruct flag as [flag|]; [|done].
  destruct (evalInternal ops factory n _ _ _ _) as [r|] eqn:E; simpl; [|done].
  by rewrite (evalInternal_mono ops factory n m _ _ _ _ r Hle E).
Qed.

Lemma evaluate_stack_monotone_witness :
  evaluate no_operators recording_events 9 (Some feature0) (Some someUser)
           (defineFeatures [feature0; feature1 true None 1])
  = Js.Ok (Evaluation None (Detail (Js.Str "a") (Some 0) FALLTHROUGH)
             [PrereqEvent (Js.Present "feature1") 2 (Some 1) (Js.Str "e")
                          (Js.Present "feature0")]).
Proof.
  apply (evaluate_stack_monotone no_operators recording_events 2 9).
  - lia.
  - reflexivity.
Defined.

Lemma getVariation_Ok (flag : item) (i : option Z) (r : reason) :
  is_Some (variations flag) -> exists o, getVariation flag i r = Js.Ok o.
Proof.
  intros [vs Hvs]. unfold getVariation. rewrite Hvs.
  destruct i as [i|]; [|by eexists]. destruct (i <? 0); [by eexists|].
  destruct (_ <=? i); by eexists.
Qed.

Lemma getOffResult_Ok (flag : item) (r : reason) :
  is_Some (variations flag) -> exists o, getOffResult flag r = Js.Ok o.
Proof.
  intros Hvs. unfold getOffResult. destruct (offVariation flag); [|by eexists].
  by apply getVariation_Ok.
Qed.

Lemma evalRules_Ok ops (flag : item) (u : user) (s : Store.t) :
  is_Some (variations flag) -> exists o, evalRules ops flag u s = Js.Ok o.
Proof.
  intros Hvs. unfold evalRules, getResultForVariationOrRollout.
  destruct (firstTarget _ u); [by apply getVariation_Ok|].
  destruct (firstRule ops _ u s) as [r|].
  - destruct (variationForUser _ u flag); [by apply getVariation_Ok|by eexists].
  - destruct (fallthrough flag) as [r|]; [|by eexists].
    destruct (variationForUser _ u flag); [by apply getVariation_Ok|by eexists].
Qed.

(** What [evaluate] does for a flag without prerequisites. *)
Lemma evaluate_no_prerequisites {event} ops (factory : eventFactory event)
    (stack : nat) (flag : item) (usr : user) (s : Store.t) :
  default [] (prerequisites flag) = [] ->
  key_specified (Some usr) = true ->
  evaluate ops factory (S stack) (Some flag) (Some usr) s
  = let* o := (if on flag
               then evalRules ops flag
                      (stringifyAttrs usr userAttrsToStringifyForEvaluation) s
               else getOffResult flag OFF) in
    Js.Ok (Evaluation (err o) (detail_of o) []).
Proof.
  intros Hp Hk. unfold key_specified in Hk. apply negb_true_iff in Hk.
  unfold evaluate. rewrite Hk. cbn [evalInternal]. rewrite Hp.
  destruct (on flag); cbn [negb checkPrerequisitesLoop Js.bind].
  - by destruct (evalRules _ _ _ _).
  - by destruct (getOffResult _ _).
Qed.

(** X9. A flag without prerequisites is evaluated without recursion: for
    a user with a key and any stack of depth one or more, [evaluate] does
    what [getOffResult] does when the flag is off and what [evalRules]
    does when it is on: it returns their result, with no events, and it
    throws when they throw. If the flag has a [variations] array and no
    rules, it returns. *)
Theorem evaluate_without_prerequisites {event} ops (factory : eventFactory event)
    (stack : nat) (flag : item) (usr : user) (s : Store.t) :
  default [] (prerequisites flag) = [] ->
  key_specified (Some usr) = true ->
  evaluate ops factory (S stack) (Some flag) (Some usr) s
  = (let* o := (if on flag
                then evalRules ops flag
                       (stringifyAttrs usr userAttrsToStringifyForEvaluation) s
                else getOffResult flag OFF) in
     Js.Ok (Evaluation (err o) (detail_of o) []))
  /\ (is_Some (variations flag) -> default [] (rules flag) = [] ->
      exists ev, evaluate ops factory (S stack) (Some flag) (Some usr) s = Js.Ok ev
                 /\ ev_events ev = []).
Proof.
  intros Hp Hk. rewrite (evaluate_no_prerequisites ops factory stack flag usr s Hp Hk).
  split; [done|]. intros Hvs _.
  destruct (on flag).
  - destruct (evalRules_Ok ops flag
                (stringifyAttrs usr userAttrsToStringifyForEvaluation) s Hvs)
      as [o ->].
    by eexists.
  - destruct (getOffResult_Ok flag OFF Hvs) as [o ->]. by eexists.
Qed.

Lemma evaluate_without_prerequisites_witness :
  evaluate no_operators recording_events 3 (Some targetFlag) (Some userkeyUser)
           Store.new
  = Js.Ok (Evaluation None (Detail (Js.Str "c") (Some 2) TARGET_MATCH) []).
Proof.
  rewrite (proj1 (evaluate_without_prerequisites no_operators recording_events 2
                    targetFlag userkeyUser Store.new eq_refl eq_refl)).
  reflexivity.
Defined.

(** A flag stored without [variations]: reading the variation it is to
    serve throws. *)
Example evaluate_without_variations :
  evaluate no_operators recording_events 8
    (Some (Item (Js.Present "f") 1 false false None (Some 0) None None None None
                Js.Absent None None))
    (Some someUser) Store.new
  = Js.Throw (Js.TypeError "Cannot read property 'length' of undefined").
Proof. reflexivity. Qed.

(* ===================================================================== *)
(** ** The engine: prerequisites                                          *)
(* ===================================================================== *)

Lemma checkPrerequisitesLoop_events {event} (factory : eventFactory event)
    (ev : item -> list event -> Js.result (outcome * list event))
    ps flag u s events failed events' :
  (forall f evs o evs', ev f evs = Js.Ok (o, evs') ->
                        exists more, evs' = (evs ++ more)%list) ->
  checkPrerequisitesLoop factory ev ps flag u s events = Js.Ok (failed, events') ->
  (exists more, events' = (events ++ more)%list)
  /\ match failed with
     | Some (_, r) =>
         exists p, In p ps /\ r = PREREQUISITE_FAILED (prereq_key p)
     | None => True
     end.
Proof.
  intros Hev. revert events. induction ps as [|p ps IH]; intros events; simpl.
  - intros [= <- <-]. split; [|done]. exists []. by rewrite app_nil_r.
  - destruct (Store.get s dataKind.features (prereq_key p)) as [pf|].
    + destruct (ev pf events) as [[o evs]|] eqn:E; simpl; [|done].
      destruct (Hev _ _ _ _ E) as [more ->].
      destruct (err o).
      * intros [= <- <-]. split; [|by exists p; split; [left|]].
        eexists. by rewrite <- app_assoc.
      * destruct (_ || _).
        -- intros [= <- <-]. split; [|by exists p; split; [left|]].
           eexists. by rewrite <- app_assoc.
        -- intros H. destruct (IH _ H) as [[more' ->] Hf]. split.
           ++ eexists. by rewrite <- !app_assoc.
           ++ destruct failed as [[e r]|]; [|done].
              destruct Hf as (p' & Hin & ->). exists p'. split; [by right|done].
    + intros [= <- <-]. split; [|by exists p; split; [left|]].
      exists []. by rewrite app_nil_r.
Qed.

Lemma evalInternal_events {event} ops (factory : eventFactory event)
    (stack : nat) : forall flag u s events o events',
  evalInternal ops factory stack flag u s events = Js.Ok (o, events') ->
  exists more, events' = (events ++ more)%list.
Proof.
  induction stack as [|stack IH]; intros flag u s events o events'; simpl; [done|].
  destruct (negb (on flag)).
  - destruct (getOffResult flag OFF); simpl; [|done].
    intros [= <- <-]. exists []. by rewrite app_nil_r.
  - destruct (checkPrerequisitesLoop _ _ _ _ _ _ _) as [[failed evs]|] eqn:E;
      simpl; [|done].
    apply checkPrerequisitesLoop_events in E as [Hm _].
    + destruct failed as [[e r]|].
      * destruct (getOffResult flag r); simpl; [|done]. by intros [= <- <-].
      * destruct (evalRules ops flag u s); simpl; [|done]. by intros [= <- <-].
    + intros f evs' o' evs'' H. by apply IH in H.
Qed.

(** X10. What the engine returns for a flag, whenever it returns. For a
    flag that is off: the off result with reason [OFF], and no new event.
    For a flag that is on: either the result of its targets and rules, or
    the off result with reason [PREREQUISITE_FAILED] naming one of the
    flag's own prerequisites; whatever error the evaluation of the
    prerequisite ended with is not passed on. Events are only ever
    appended. *)
Theorem evalInternal_result {event} ops (factory : eventFactory event)
    (stack : nat) (flag : item) (u : user) (s : Store.t) (events : list event)
    (o : outcome) (events' : list event) :
  evalInternal ops factory stack flag u s events = Js.Ok (o, events') ->
  (exists more, events' = (events ++ more)%list)
  /\ if on flag
     then evalRules ops flag u s = Js.Ok o
          \/ exists p, In p (default [] (prerequisites flag))
                       /\ getOffResult flag (PREREQUISITE_FAILED (prereq_key p))
                          = Js.Ok o
     else getOffResult flag OFF = Js.Ok o /\ events' = events.
Proof.
  intros H. split; [by eapply evalInternal_events|].
  destruct stack as [|stack]; simpl in H; [done|].
  destruct (on flag); simpl in H.
  - destruct (checkPrerequisitesLoop _ _ _ _ _ _ _) as [[failed evs]|] eqn:E;
      simpl in H; [|done].
    apply checkPrerequisitesLoop_events in E as [_ Hf].
    + destruct failed as [[e r]|].
      * destruct (getOffResult flag r) as [o'|] eqn:Eo; simpl in H; [|done].
        injection H as <- <-. destruct Hf as (p & Hin & ->). right. by exists p.
      * destruct (evalRules ops flag u s) as [o'|] eqn:Eo; simpl in H; [|done].
        injection H as <- <-. by left.
    + intros f evs' o' evs'' H'. by eapply evalInternal_events.
  - destruct (getOffResult flag OFF) as [o'|] eqn:Eo; simpl in H; [|done].
    by injection H as <- <-.
Qed.

Lemma evalInternal_result_witness :
  let o := Outcome None
             (Detail (Js.Str "b") (Some 1) (PREREQUISITE_FAILED "feature1")) in
  (exists more : list prereqEvent, [] = ([] ++ more)%list)
  /\ (evalRules no_operators feature0 someUser Store.new = Js.Ok o
      \/ exists p, In p (default [] (prerequisites feature0))
                   /\ getOffResult feature0 (PREREQUISITE_FAILED (prereq_key p))
                      = Js.Ok o).
Proof.
  apply (evalInternal_result no_operators recording_events 8 feature0 someUser
           Store.new []
           (Outcome None
              (Detail (Js.Str "b") (Some 1) (PREREQUISITE_FAILED "feature1"))) []).
  reflexivity.
Defined.

(* ===================================================================== *)
(** ** The engine: clauses                                                *)
(* ===================================================================== *)

(** X11. A clause on an attribute the user does not have (or has as null)
    does not match, and neither does its negation: [negate] is not
    applied to a missing value. *)
Theorem clause_on_missing_attribute ops (c : clause) (u : user) (s : Store.t) :
  op c <> "segmentMatch" ->
  Js.nullish (userValue u (attribute c)) = true ->
  clauseMatchUser ops c u s = false
  /\ clauseMatchUser ops (negated c) u s = false.
Proof.
  intros Hop Hn. unfold clauseMatchUser, negated. simpl.
  apply String.eqb_neq in Hop. rewrite Hop.
  unfold clauseMatchUserNoSegments. simpl. by rewrite Hn.
Qed.

Lemma clause_on_missing_attribute_witness :
  clauseMatchUser no_operators (legsClause false) someUser Store.new = false
  /\ clauseMatchUser no_operators (negated (legsClause false)) someUser Store.new
     = false.
Proof.
  apply (clause_on_missing_attribute no_operators (legsClause false) someUser
           Store.new).
  - discriminate.
  - reflexivity.
Defined.

(** X12. Apart from that case, [negate] inverts a clause: for a
    [segmentMatch] clause, and for any other clause on an attribute the
    user has, the clause with [negate] flipped matches exactly when the
    clause does not. *)
Theorem negate_inverts_clause ops (c : clause) (u : user) (s : Store.t) :
  op c = "segmentMatch" \/ Js.nullish (userValue u (attribute c)) = false ->
  clauseMatchUser ops (negated c) u s = negb (clauseMatchUser ops c u s).
Proof.
  intros H. unfold clauseMatchUser, negated. simpl.
  destruct (String.eqb_spec (op c) "segmentMatch") as [E|E].
  - unfold maybeNegate. simpl. destruct (negate c); simpl; [|done].
    by rewrite negb_involutive.
  - destruct H as [H|H]; [done|].
    unfold clauseMatchUserNoSegments, maybeNegate. simpl. rewrite H.
    destruct (userValue u (attribute c)); destruct (negate c); simpl;
      by rewrite ?negb_involutive.
Qed.

Lemma negate_inverts_clause_witness :
  clauseMatchUser no_operators (negated (segmentClause false)) fooUser Store.new
  = negb (clauseMatchUser no_operators (segmentClause false) fooUser Store.new).
Proof.
  apply (negate_inverts_clause no_operators (segmentClause false) fooUser Store.new).
  left. reflexivity.
Defined.

(* ===================================================================== *)
(** ** The engine: segments                                               *)
(* ===================================================================== *)

Lemma includes_user_key_In (l : list string) (u : user) (k : string) :
  has_string_key u k -> includes_user_key l u = true <-> In k l.
Proof.
  intros Hk. unfold includes_user_key, user_key_is. rewrite Hk, existsb_exists.
  split.
  - intros (x & Hin & E). apply String.eqb_eq in E. by subst.
  - intros Hin. exists k. split; [done|apply String.eqb_refl].
Qed.

(** X13. Membership lists of a segment, for a user whose key is the
    string [k]: a non-empty [k] listed in [included] is in the segment,
    whatever [excluded] and the rules say; a [k] listed in [excluded] and
    not in [included] is not, whatever the rules say; and the empty key is
    in no segment, not even one that lists it. *)
Theorem segmentMatchUser_lists ops (segment : item) (u : user) (k : string) :
  has_string_key u k ->
  (k <> EmptyString -> In k (default [] (included segment)) ->
   segmentMatchUser ops segment u = true)
  /\ (~ In k (default [] (included segment)) ->
      In k (default [] (excluded segment)) ->
      segmentMatchUser ops segment u = false)
  /\ (k = EmptyString -> segmentMatchUser ops segment u = false).
Proof.
  intros Hk. unfold segmentMatchUser. rewrite Hk. simpl.
  split; [|split].
  - intros Hne Hin. apply String.eqb_neq in Hne. rewrite Hne. simpl.
    by rewrite (proj2 (includes_user_key_In _ u k Hk) Hin).
  - intros Hni Hin. destruct (negb (String.eqb k EmptyString)); [|done].
    destruct (includes_user_key (default [] (included segment)) u) eqn:E.
    + apply (includes_user_key_In _ u k Hk) in E. done.
    + by rewrite (proj2 (includes_user_key_In _ u k Hk) Hin).
  - intros ->. done.
Qed.

Lemma segmentMatchUser_lists_witness :
  segmentMatchUser no_operators testSegment fooUser = true
  /\ segmentMatchUser no_operators testSegment blankKeyUser = false.
Proof.
  split.
  - apply (proj1 (segmentMatchUser_lists no_operators testSegment fooUser "foo"
                    eq_refl)).
    + discriminate.
    + simpl. tauto.
  - apply (proj2 (proj2 (segmentMatchUser_lists no_operators testSegment
                           blankKeyUser EmptyString eq_refl))).
    reflexivity.
Defined.

(** Rounding to the nearest double stays within one part in [2^53] below a
    number that is 1 or more, and keeps the sign. *)

Lemma nearest_even_lower (N D : Z) :
  0 < D -> 2 * N - D <= 2 * (F64.nearest_even N D * D).
Proof.
  intros HD. unfold F64.nearest_even.
  pose proof (Z.div_mod N D ltac:(lia)) as E.
  pose proof (Z.mod_pos_bound N D HD) as Hr.
  destruct (Z.ltb_spec (2 * (N mod D)) D); [nia|].
  destruct (Z.ltb_spec D (2 * (N mod D))); [nia|].
  destruct (Z.even (N / D)); nia.
Qed.

Lemma nearest_even_nonneg (N D : Z) :
  0 <= N -> 0 < D -> 0 <= F64.nearest_even N D.
Proof.
  intros HN HD. unfold F64.nearest_even.
  pose proof (Z.div_pos N D HN HD).
  repeat match goal with |- context [if ?c then _ else _] => destruct c end; lia.
Qed.

Lemma ilog2_ge1 (a b : Z) :
  0 < b <= a -> 0 <= F64.ilog2 a b /\ b * 2 ^ F64.ilog2 a b <= a.
Proof.
  intros [Hb Hab]. unfold F64.ilog2.
  pose proof (Z.log2_le_mono b a Hab) as Hm.
  pose proof (Z.log2_spec a ltac:(lia)) as [Ha1 Ha2].
  pose proof (Z.log2_spec b Hb) as [Hb1 Hb2].
  pose proof (Z.log2_nonneg b) as Hbn.
  set (e := Z.log2 a - Z.log2 b) in *.
  destruct (Z.leb_spec 0 e) as [He|He]; [|lia].
  destruct (Z.leb_spec (b * 2 ^ e) a) as [Hc|Hc]; [lia|].
  assert (e <> 0) as Hne.
  { intros E0. rewrite E0 in Hc. simpl in Hc. lia. }
  split; [lia|].
  assert (2 ^ Z.log2 a = 2 ^ (Z.log2 b + 1) * 2 ^ (e - 1)) as Hp.
  { rewrite <- Z.pow_add_r by lia. f_equal. lia. }
  assert (0 < 2 ^ (e - 1)) by (apply Z.pow_pos_nonneg; lia).
  nia.
Qed.

Lemma round_pos_lower (a b : Z) :
  0 < b <= a ->
  at_least (inject_Z (a * (2 ^ 53 - 1)) / inject_Z (b * 2 ^ 53)) (F64.round_pos a b).
Proof.
  intros Hab. destruct (ilog2_ge1 a b Hab) as [He Hpow].
  unfold F64.round_pos.
  set (E := F64.ilog2 a b) in *.
  rewrite (Z.max_l E (-1022)) by lia.
  destruct (_ || _); [done|]. unfold at_least.
  rewrite Qred_correct.
  assert (0 < 2 ^ E) as HE by (apply Z.pow_pos_nonneg; lia).
  destruct (Z.leb_spec 0 (52 - E)) as [Hk|Hk].
  - set (n := F64.nearest_even (a * 2 ^ (52 - E)) b).
    pose proof (nearest_even_lower (a * 2 ^ (52 - E)) b ltac:(lia)) as Hn.
    fold n in Hn.
    assert (0 < 2 ^ (52 - E)) as HK by (apply Z.pow_pos_nonneg; lia).
    assert (b * 2 ^ 52 <= a * 2 ^ (52 - E)) as H52.
    { replace (2 ^ 52) with (2 ^ E * 2 ^ (52 - E))
        by (rewrite <- Z.pow_add_r by lia; f_equal; lia).
      nia. }
    unfold Qle, Qdiv, Qmult, Qinv, inject_Z. cbn [Qnum Qden].
    destruct (b * 2 ^ 53) as [|p|p] eqn:Ep; try lia.
    cbn [Qnum Qden]. rewrite Pos.mul_1_l, Z2Pos.id by lia. rewrite <- Ep.
    set (X := a * 2 ^ (52 - E)) in *.
    assert (a * (2 ^ 53 - 1) * 1 * 2 ^ (52 - E) = X * (2 ^ 53 - 1)) as ->
      by (subst X; ring).
    assert (n * (b * 2 ^ 53) = (n * b) * 2 ^ 53) as -> by ring.
    set (Y := n * b) in *. lia.
  - set (D := b * 2 ^ (- (52 - E))).
    set (n := F64.nearest_even a D).
    assert (0 < 2 ^ (- (52 - E))) as HK by (apply Z.pow_pos_nonneg; lia).
    pose proof (nearest_even_lower a D ltac:(subst D; nia)) as Hn.
    fold n in Hn.
    assert (D * 2 ^ 52 <= a) as H52.
    { subst D. replace (2 ^ E) with (2 ^ (- (52 - E)) * 2 ^ 52) in Hpow
        by (rewrite <- Z.pow_add_r by lia; f_equal; lia).
      nia. }
    unfold Qle, Qdiv, Qmult, Qinv, inject_Z. cbn [Qnum Qden].
    destruct (b * 2 ^ 53) as [|p|p] eqn:Ep; try lia.
    cbn [Qnum Qden]. rewrite Pos.mul_1_l. rewrite <- Ep.
    assert (n * 2 ^ (- (52 - E)) * (b * 2 ^ 53) = (n * D) * 2 ^ 53) as ->
      by (subst D; ring).
    set (Y := n * D) in *. lia.
Qed.

Lemma round_pos_nonneg (a b : Z) :
  0 < a -> 0 < b -> at_least 0 (F64.round_pos a b).
Proof.
  intros Ha Hb. unfold F64.round_pos.
  set (e := Z.max (F64.ilog2 a b) (-1022)).
  destruct (_ || _); [done|]. unfold at_least. rewrite Qred_correct.
  destruct (Z.leb_spec 0 (52 - e)) as [Hk|Hk].
  - pose proof (nearest_even_nonneg (a * 2 ^ (52 - e)) b) as Hn.
    assert (0 < 2 ^ (52 - e)) by (apply Z.pow_pos_nonneg; lia).
    unfold Qle. cbn [Qnum Qden]. nia.
  - assert (0 < 2 ^ (- (52 - e))) by (apply Z.pow_pos_nonneg; lia).
    pose proof (nearest_even_nonneg a (b * 2 ^ (- (52 - e)))) as Hn.
    unfold Qle, inject_Z. cbn [Qnum Qden]. nia.
Qed.

Lemma round_nonpos (q : Q) : (q <= 0)%Q -> at_most_zero (F64.round q).
Proof.
  intros Hq. unfold F64.round. destruct q as [n d]. cbn [Qnum Qden].
  unfold Qle in Hq. cbn [Qnum Qden] in Hq.
  destruct n as [|p|p]; [done|lia|].
  pose proof (round_pos_nonneg (Z.pos p) (Z.pos d) ltac:(lia) ltac:(lia)) as H.
  destruct (F64.round_pos _ _) as [q'|s|]; simpl in *; [|by subst|done].
  unfold Qle in *. simpl in *. lia.
Qed.

Lemma round_ge1 (q : Q) :
  (1 <= q)%Q -> at_least (q * (1 - (1 # 2 ^ 53)))%Q (F64.round q).
Proof.
  intros Hq. unfold F64.round. destruct q as [n d]. cbn [Qnum Qden].
  unfold Qle in Hq. cbn [Qnum Qden] in Hq.
  destruct n as [|p|p]; try lia.
  pose proof (round_pos_lower (Z.pos p) (Z.pos d) ltac:(lia)) as H.
  destruct (F64.round_pos _ _) as [q'|s|]; simpl in *; [|done|done].
  eapply Qle_trans; [|exact H].
  unfold Qle, Qdiv, Qmult, Qinv, Qminus, Qplus, Qopp, inject_Z. simpl. lia.
Qed.

Lemma at_least_below (c b : Q) (x : F64.t) :
  at_least c x -> (b < c)%Q -> F64.ltb (F64.Finite b) x = true.
Proof.
  destruct x as [q|s|]; simpl; [|by intros ->|done].
  intros Hc Hb. destruct (Qle_bool q b) eqn:E; [|done].
  apply Qle_bool_iff in E. exfalso.
  apply (Qlt_irrefl b). eapply Qlt_le_trans; [exact Hb|]. by eapply Qle_trans.
Qed.

Lemma at_most_zero_not_below (b : Q) (x : F64.t) :
  at_most_zero x -> (0 <= b)%Q -> F64.ltb (F64.Finite b) x = false.
Proof.
  destruct x as [q|s|]; simpl; [|by intros ->|done].
  intros Hq Hb. apply negb_false_iff, Qle_bool_iff. by eapply Qle_trans.
Qed.

Lemma of_Z_100000 : F64.of_Z 100000 = F64.Finite 100000.
Proof. vm_compute. reflexivity. Qed.

(** [w / 100000.0] for an integer [w <= 0] is not above zero. *)
Lemma weight_nonpos (w : Z) :
  w <= 0 -> at_most_zero (F64.div (F64.of_Z w) (F64.of_Z 100000)).
Proof.
  intros Hw. rewrite of_Z_100000.
  pose proof (round_nonpos (inject_Z w)) as H. fold (F64.of_Z w) in H.
  specialize (H ltac:(unfold Qle, inject_Z; simpl; lia)).
  destruct (F64.of_Z w) as [q|s|]; simpl in *; [|by subst|done].
  apply round_nonpos.
  unfold Qle, Qdiv, Qmult, Qinv in *. simpl in *. lia.
Qed.

(** [w / 100000.0] for an integer [w > 100000] is above one. *)
Lemma weight_above_one (w : Z) :
  100000 < w ->
  at_least ((100001 # 100000) * ((1 - (1 # 2 ^ 53)) * (1 - (1 # 2 ^ 53))))%Q
           (F64.div (F64.of_Z w) (F64.of_Z 100000)).
Proof.
  intros Hw. rewrite of_Z_100000.
  pose proof (round_ge1 (inject_Z w)) as H. fold (F64.of_Z w) in H.
  specialize (H ltac:(unfold Qle, inject_Z; simpl; lia)).
  destruct (F64.of_Z w) as [q|s|]; simpl in *; [|by subst|done].
  assert ((100001 # 1) * (1 - (1 # 2 ^ 53)) <= q)%Q as Hq.
  { eapply Qle_trans; [|exact H].
    unfold Qle, Qmult, Qminus, Qplus, Qopp, inject_Z. simpl. lia. }
  assert (1 <= q / 100000)%Q as H1.
  { apply Qle_shift_div_l; [done|]. eapply Qle_trans; [|exact Hq]. done. }
  pose proof (round_ge1 (q / 100000) H1) as H2.
  destruct (F64.round (q / 100000)) as [q'|s|]; simpl in *; [|done|done].
  eapply Qle_trans; [|exact H2].
  rewrite Qmult_assoc. apply Qmult_le_compat_r; [|done].
  apply Qle_shift_div_l; [done|].
  eapply Qle_trans; [|exact Hq].
  unfold Qle, Qmult, Qminus, Qplus, Qopp. simpl. lia.
Qed.

Lemma bucketUser_range (u : user) (key : Js.nullable string) (attr : string)
    (salt : Js.nullable string) :
  (0 <= bucketUser u key attr salt)%Q /\ (bucketUser u key attr salt <= 1)%Q.
Proof.
  unfold bucketUser.
  destruct (bucketableStringValue (userValue u attr)) as [id|]; [|done].
  match goal with
  | |- context [Js.parseInt16 (substring 0 15 (sha1Hex ?x))] =>
      destruct (parseInt16_sha1Hex x) as (n & -> & Hn)
  end.
  destruct (quotient_facts n Hn) as (H0 & H1 & _). done.
Qed.

(** X14. The weight of a segment rule: a rule whose weight is zero or
    less matches no user, and a rule whose weight is above 100000 matches
    exactly the users its clauses match, whatever their bucket. *)
Theorem segmentRuleMatchUser_weight ops (r : rule) (u : user)
    (segmentKey salt : Js.nullable string) (w : Z) :
  rule_weight r = Some w ->
  (w <= 0 -> segmentRuleMatchUser ops r u segmentKey salt = false)
  /\ (100000 < w ->
      segmentRuleMatchUser ops r u segmentKey salt
      = forallb (fun c => clauseMatchUserNoSegments ops c u)
                (default [] (rule_clauses r))).
Proof.
  intros Hw. unfold segmentRuleMatchUser. rewrite Hw.
  set (bucketBy := match rule_bucketBy r with
                   | Some b => if String.eqb b EmptyString then "key" else b
                   | None => "key" end).
  destruct (bucketUser_range u segmentKey bucketBy salt) as [H0 H1].
  set (b := bucketUser u segmentKey bucketBy salt) in *.
  split; intros Hr; destruct (forallb _ _); cbn [negb]; try done.
  - apply at_most_zero_not_below; [by apply weight_nonpos|done].
  - eapply at_least_below; [by apply weight_above_one|].
    eapply Qle_lt_trans; [exact H1|].
    unfold Qlt, Qmult, Qminus, Qplus, Qopp. simpl. lia.
Qed.

Lemma segmentRuleMatchUser_weight_witness :
  segmentRuleMatchUser no_operators (weightRule 0) fooUser (Js.Present "test")
                       Js.Absent = false
  /\ segmentRuleMatchUser no_operators (weightRule 100001) fooUser
                          (Js.Present "test") Js.Absent = true.
Proof.
  split.
  - apply (proj1 (segmentRuleMatchUser_weight no_operators (weightRule 0) fooUser
                    (Js.Present "test") Js.Absent 0 eq_refl)).
    lia.
  - rewrite (proj2 (segmentRuleMatchUser_weight no_operators (weightRule 100001)
                      fooUser (Js.Present "test") Js.Absent 100001 eq_refl)).
    + reflexivity.
    + lia.
Defined.

(* ===================================================================== *)
(** ** The engine: rollouts, rules and targets                            *)
(* ===================================================================== *)

Lemma firstBucket_listed (b : Q) (vs : list weightedVariation) (sum : F64.t)
    (v : Z) :
  firstBucket b sum vs = Some v -> exists w, In w vs /\ v = wv_variation w.
Proof.
  revert sum. induction vs as [|w vs IH]; intros sum; cbn [firstBucket]; [done|].
  destruct (F64.ltb _ _).
  - intros [= <-]. exists w. split; [by left|done].
  - intros H. destruct (IH _ H) as (w' & Hin & ->). exists w'. split; [by right|done].
Qed.

Lemma last_listed (vs : list weightedVariation) (w0 : weightedVariation) :
  vs <> [] -> In (List.last vs w0) vs.
Proof.
  induction vs as [|w vs IH]; [done|]. intros _. destruct vs as [|w' vs].
  - by left.
  - right. apply IH. done.
Qed.

(** X15. A rollout with at least one weighted variation always resolves,
    and to the variation of one of the entries it lists: never to null,
    whatever the weights are. *)
Theorem rollout_resolves_to_listed (r : variationOrRollout) (u : user) (flag : item)
    (ro : rollout) (vs : list weightedVariation) :
  vr_variation r = None -> vr_rollout r = Some ro ->
  ro_variations ro = Some vs -> vs <> [] ->
  exists w, In w vs /\ variationForUser r u flag = Some (wv_variation w).
Proof.
  intros Hv Hro Hvs Hne. unfold variationForUser. rewrite Hv, Hro, Hvs.
  destruct vs as [|w0 ws]; [done|].
  destruct (firstBucket _ _ (w0 :: ws)) as [v|] eqn:E.
  - destruct (firstBucket_listed _ _ _ _ E) as (w & Hin & ->). by exists w.
  - exists (List.last (w0 :: ws) w0). split; [by apply last_listed|done].
Qed.

Lemma rollout_resolves_to_listed_witness :
  exists w, In w [WeightedVariation 0 10000; WeightedVariation 1 90000]
            /\ variationForUser rollout_by_key userKeyA (hashFlag rollout_by_key)
               = Some (wv_variation w).
Proof.
  apply (rollout_resolves_to_listed rollout_by_key userKeyA (hashFlag rollout_by_key)
           (Rollout (Some [WeightedVariation 0 10000; WeightedVariation 1 90000])
                    None)
           [WeightedVariation 0 10000; WeightedVariation 1 90000]);
    [reflexivity | reflexivity | reflexivity | discriminate].
Defined.

Lemma firstRule_first ops (rs : list rule) (u : user) (s : Store.t) (i : nat)
    (r : rule) :
  rs !! i = Some r ->
  ruleMatchUser ops r u s = true ->
  (forall j r', (j < i)%nat -> rs !! j = Some r' -> ruleMatchUser ops r' u s = false) ->
  firstRule ops rs u s = Some r.
Proof.
  revert i. induction rs as [|r0 rs IH]; intros i Hi Hm Hearlier; [done|].
  destruct i as [|i]; simpl in *.
  - injection Hi as ->. by rewrite Hm.
  - rewrite (Hearlier 0%nat r0 ltac:(lia) eq_refl).
    apply (IH i Hi Hm). intros j r' Hj Hr'. apply (Hearlier (S j) r'); [lia|done].
Qed.

Lemma ruleIndexOf_first (id : Js.nullable string) (rs : list rule) (n i : nat)
    (r : rule) :
  rs !! i = Some r -> rule_id r = id ->
  exists j r', (j <= i)%nat /\ rs !! j = Some r' /\ rule_id r' = id
               /\ (forall j' r'', (j' < j)%nat -> rs !! j' = Some r'' ->
                                  rule_id r'' <> id)
               /\ ruleIndexOf id rs n = Some (n + j)%nat.
Proof.
  revert n i. induction rs as [|r0 rs IH]; intros n i Hi Hid; [done|]. simpl.
  case_bool_decide as E.
  - exists 0%nat, r0.
    split; [lia|split; [done|split; [done|split; [|f_equal; lia]]]].
    intros j' r'' Hj'. lia.
  - destruct i as [|i]; simpl in Hi; [injection Hi as ->; congruence|].
    destruct (IH (S n) i Hi Hid) as (j & r' & Hle & Hj & Hr' & Hmin & Hres).
    exists (S j), r'.
    split; [lia|split; [done|split; [done|split; [|rewrite Hres; f_equal; lia]]]].
    intros [|j'] r'' Hlt Hl; simpl in Hl; [injection Hl as <-; congruence|].
    apply (Hmin j' r''); [lia|done].
Qed.

(** X16. The first matching rule decides, and the reason names it. When
    no target lists the user, the rule at position [i] matches and no
    earlier rule does, the result is that of the rule's variation or
    rollout, with the reason [RULE_MATCH] carrying the rule's id and the
    position [j] of the first rule that has this id: [j] is at most [i],
    and it is [i] when the ids of the rules are pairwise different. *)
Theorem evalRules_first_matching_rule ops (flag : item) (u : user) (s : Store.t)
    (i : nat) (r : rule) :
  firstTarget (default [] (targets flag)) u = None ->
  default [] (rules flag) !! i = Some r ->
  ruleMatchUser ops r u s = true ->
  (forall j r', (j < i)%nat -> default [] (rules flag) !! j = Some r' ->
                ruleMatchUser ops r' u s = false) ->
  exists j r', (j <= i)%nat
    /\ default [] (rules flag) !! j = Some r' /\ rule_id r' = rule_id r
    /\ (forall j' r'', (j' < j)%nat -> default [] (rules flag) !! j' = Some r'' ->
                       rule_id r'' <> rule_id r)
    /\ (NoDup (map rule_id (default [] (rules flag))) -> j = i)
    /\ evalRules ops flag u s
       = getResultForVariationOrRollout (Some (rule_vr r)) u flag
           (RULE_MATCH (rule_id r) (Some j)).
Proof.
  intros Ht Hi Hm Hearlier. unfold evalRules. rewrite Ht.
  rewrite (firstRule_first ops _ u s i r Hi Hm Hearlier).
  destruct (ruleIndexOf_first (rule_id r) _ 0 i r Hi eq_refl)
    as (j & r' & Hle & Hj & Hr' & Hmin & Hres).
  exists j, r'. split; [done|split; [done|split; [done|split; [done|split]]]].
  - intros Hnd. change (NoDup (rule_id <$> default [] (rules flag))) in Hnd.
    eapply NoDup_lookup; [exact Hnd| |].
    + rewrite list_lookup_fmap, Hj. simpl. by rewrite Hr'.
    + by rewrite list_lookup_fmap, Hi.
  - by rewrite Hres.
Qed.

Lemma evalRules_first_matching_rule_witness :
  exists j r', (j <= 1)%nat
    /\ default [] (rules rulesFlag) !! j = Some r' /\ rule_id r' = rule_id rule_id1
    /\ (forall j' r'', (j' < j)%nat ->
                       default [] (rules rulesFlag) !! j' = Some r'' ->
                       rule_id r'' <> rule_id rule_id1)
    /\ (NoDup (map rule_id (default [] (rules rulesFlag))) -> j = 1%nat)
    /\ evalRules no_operators rulesFlag someUser Store.new
       = getResultForVariationOrRollout (Some (rule_vr rule_id1)) someUser rulesFlag
           (RULE_MATCH (rule_id rule_id1) (Some j)).
Proof.
  apply (evalRules_first_matching_rule no_operators rulesFlag someUser Store.new
           1%nat rule_id1).
  - reflexivity.
  - reflexivity.
  - reflexivity.
  - intros j r' Hj Hr'. assert (j = 0%nat) as -> by lia.
    injection Hr' as <-. reflexivity.
Defined.

(** X17. Targets come before rules: when the target at position [i] lists
    the user's key and no earlier target does, the result is that target's
    variation with reason [TARGET_MATCH], whatever the rules, the
    fallthrough, the operators and the store are. *)
Theorem evalRules_first_target ops (flag : item) (u : user) (s : Store.t)
    (i : nat) (t : target) (vs : list string) :
  default [] (targets flag) !! i = Some t ->
  target_values t = Some vs ->
  includes_user_key vs u = true ->
  (forall j t' vs', (j < i)%nat -> default [] (targets flag) !! j = Some t' ->
                    target_values t' = Some vs' -> includes_user_key vs' u = false) ->
  evalRules ops flag u s = getVariation flag (target_variation t) TARGET_MATCH.
Proof.
  intros Hi Hvs Hin Hearlier. unfold evalRules.
  assert (firstTarget (default [] (targets flag)) u = Some t) as ->; [|done].
  revert i Hi Hearlier. induction (default [] (targets flag)) as [|t0 ts IH];
    intros i Hi Hearlier; [done|].
  destruct i as [|i]; simpl in *.
  - injection Hi as ->. by rewrite Hvs, Hin.
  - destruct (target_values t0) as [vs0|] eqn:E.
    + rewrite (Hearlier 0%nat t0 vs0 ltac:(lia) eq_refl E).
      apply (IH i Hi). intros j t' vs' Hj. apply (Hearlier (S j)). lia.
    + apply (IH i Hi). intros j t' vs' Hj. apply (Hearlier (S j)). lia.
Qed.

Lemma evalRules_first_target_witness :
  evalRules no_operators targetFlag userkeyUser Store.new
  = getVariation targetFlag (Some 2) TARGET_MATCH.
Proof.
  apply (evalRules_first_target no_operators targetFlag userkeyUser Store.new 0%nat
           (Target (Some 2) (Some ["some"; "userkey"; "or"; "other"]))
           ["some"; "userkey"; "or"; "other"]).
  - reflexivity.
  - reflexivity.
  - reflexivity.
  - intros j t' vs' Hj. lia.
Defined.

(** X18. A flag that is on and whose first prerequisite is not in the
    store (never received, or deleted) gets the off result with the reason
    [PREREQUISITE_FAILED] naming that prerequisite: no event is produced,
    no other prerequisite is looked at, and the message saying that the
    prerequisite could not be retrieved is not passed on. [evaluate]
    returns that result whenever the flag has a [variations] array;
    without one it throws where [getOffResult] does. *)
Theorem evaluate_missing_prerequisite {event} ops (factory : eventFactory event)
    (stack : nat) (flag : item) (usr : user) (s : Store.t) (p : prerequisite)
    (rest : list prerequisite) :
  key_specified (Some usr) = true ->
  on flag = true ->
  prerequisites flag = Some (p :: rest) ->
  Store.get s dataKind.features (prereq_key p) = None ->
  evaluate ops factory (S stack) (Some flag) (Some usr) s
  = (let* o := getOffResult flag (PREREQUISITE_FAILED (prereq_key p)) in
     Js.Ok (Evaluation (err o) (detail_of o) []))
  /\ (is_Some (variations flag) ->
      exists o,
        getOffResult flag (PREREQUISITE_FAILED (prereq_key p)) = Js.Ok o
        /\ evaluate ops factory (S stack) (Some flag) (Some usr) s
           = Js.Ok (Evaluation (err o) (detail_of o) [])).
Proof.
  intros Hk Hon Hp Hget. unfold key_specified in Hk. apply negb_true_iff in Hk.
  assert (evaluate ops factory (S stack) (Some flag) (Some usr) s
          = (let* o := getOffResult flag (PREREQUISITE_FAILED (prereq_key p)) in
             Js.Ok (Evaluation (err o) (detail_of o) []))) as E.
  { unfold evaluate. rewrite Hk. cbn [evalInternal]. rewrite Hon, Hp.
    cbn [negb default from_option id checkPrerequisitesLoop]. rewrite Hget.
    cbn [Js.bind]. by destruct (getOffResult _ _). }
  split; [exact E|]. intros Hvs.
  destruct (getOffResult_Ok flag (PREREQUISITE_FAILED (prereq_key p)) Hvs) as [o Ho].
  exists o. split; [exact Ho|]. by rewrite E, Ho.
Qed.

Lemma evaluate_missing_prerequisite_witness :
  evaluate no_operators recording_events 1 (Some feature0) (Some someUser) Store.new
  = Js.Ok (Evaluation None
             (Detail (Js.Str "b") (Some 1) (PREREQUISITE_FAILED "feature1")) []).
Proof.
  destruct (proj2 (evaluate_missing_prerequisite no_operators recording_events 0
                     feature0 someUser Store.new (Prerequisite "feature1" 1) []
                     eq_refl eq_refl eq_refl eq_refl))
    as (o & Ho & ->).
  - by eexists.
  - injection Ho as <-. reflexivity.
Defined.

(* ===================================================================== *)
(** ** The client                                                         *)
(* ===================================================================== *)

Lemma variationInternal_value {event} ops (c : Client.t) (name : string)
    (u : option user) (defaultVal : jsval) (factory : eventFactory event)
    (d : detail) :
  Client.returned (Client.variationInternal ops c name u defaultVal factory)
  = Some d ->
  match variationIndex d with
  | None => value d = defaultVal
  | Some i =>
      exists flag,
        Store.get (Client.featureStore c) dataKind.features name = Some flag
        /\ 0 <= i
        /\ default [] (variations flag) !! Z.to_nat i = Some (value d)
  end.
Proof.
  unfold Client.variationInternal.
  destruct (Client.offline c); [by intros [= <-]|].
  destruct (String.eqb name EmptyString); [by intros [= <-]|].
  destruct (Store.get _ _ name) as [flag|]; [|by intros [= <-]].
  destruct u as [usr|]; [|by intros [= <-]].
  destruct (evaluate _ _ _ _ _ _) as [ev|e] eqn:E; [|done].
  cbn [Client.returned]. intros [= <-].
  destruct (variationIndex (ev_detail ev)) as [i|] eqn:Ei; [|done].
  rewrite Ei. exists flag. split; [done|].
  unfold evaluate in E. destruct (Js.nullish _); [by injection E as <-|].
  destruct (evalInternal _ _ _ _ _ _ _) as [[o evs]|] eqn:E'; simpl in E; [|done].
  injection E as <-. simpl in *. apply evalInternal_coherent in E'.
  destruct E' as [H _]. rewrite Ei in H. destruct H as (_ & Hi & Hv).
  split; [lia|done].
Qed.

Lemma evaluateIfPossible_value {event} ops (c : Client.t) (name : string)
    (u : option user) (defaultVal : jsval) (factory : eventFactory event)
    (d : detail) :
  Client.returned (Client.evaluateIfPossible ops c name u defaultVal factory)
  = Some d ->
  match variationIndex d with
  | None => value d = defaultVal
  | Some i =>
      exists flag,
        Store.get (Client.featureStore c) dataKind.features name = Some flag
        /\ 0 <= i
        /\ default [] (variations flag) !! Z.to_nat i = Some (value d)
  end.
Proof.
  unfold Client.evaluateIfPossible.
  destruct (negb (Client.initComplete c)); [|apply variationInternal_value].
  destruct (Store.initialized _); [apply variationInternal_value|].
  by intros [= <-].
Qed.

(** X19. What [variationDetail] answers, whenever it answers: a detail
    without a variation index carries the caller's default value, whatever
    its reason; a detail with a variation index carries the variation that
    the flag stored under the requested key has at this index. *)
Theorem variationDetail_value {event} ops (c : Client.t) (name : string)
    (u : option user) (defaultVal : jsval) (factory : eventFactory event)
    (d : detail) :
  Client.returned (Client.variationDetail ops c name u defaultVal factory) = Some d ->
  match variationIndex d with
  | None => value d = defaultVal
  | Some i =>
      exists flag,
        Store.get (Client.featureStore c) dataKind.features name = Some flag
        /\ 0 <= i
        /\ default [] (variations flag) !! Z.to_nat i = Some (value d)
  end.
Proof. apply evaluateIfPossible_value. Qed.

Lemma variationDetail_value_witness :
  exists flag,
    Store.get (defineFeatures [targetFlag]) dataKind.features "feature0" = Some flag
    /\ 0 <= 2
    /\ default [] (variations flag) !! Z.to_nat 2 = Some (Js.Str "c").
Proof.
  apply (variationDetail_value no_operators (readyClient (defineFeatures [targetFlag]))
           "feature0" (Some userkeyUser) (Js.Str "default") recording_events
           (Detail (Js.Str "c") (Some 2) TARGET_MATCH)).
  reflexivity.
Defined.

(** X20. When [variation] is safe. If the flag stored under the requested
    key has a [variations] array, no prerequisites and no rules (or no flag
    is stored under that key) and there is call stack left, [variation]
    does not throw, and what it returns is the caller's default or one of
    the variations of that flag. *)
Theorem variation_without_prerequisites {event} ops (c : Client.t) (name : string)
    (u : option user) (defaultVal : jsval) (factory : eventFactory event) :
  (0 < Client.stack c)%nat ->
  (forall flag,
     Store.get (Client.featureStore c) dataKind.features name = Some flag ->
     is_Some (variations flag)
     /\ default [] (prerequisites flag) = []
     /\ default [] (rules flag) = []) ->
  exists v,
    Client.returned (Client.variation ops c name u defaultVal factory) = Js.Ok v
    /\ (v = defaultVal
        \/ exists flag,
             Store.get (Client.featureStore c) dataKind.features name = Some flag
             /\ In v (default [] (variations flag))).
Proof.
  intros Hs Hp.
  assert (exists d, Client.returned
                      (Client.evaluateIfPossible ops c name u defaultVal factory)
                    = Some d) as [d Hd].
  { unfold Client.evaluateIfPossible.
    assert (exists d, Client.returned
                        (Client.variationInternal ops c name u defaultVal factory)
                      = Some d) as Hint.
    { unfold Client.variationInternal.
      destruct (Client.offline c); [by eexists|].
      destruct (String.eqb name EmptyString); [by eexists|].
      destruct (Store.get _ _ name) as [flag|] eqn:Eg; [|by eexists].
      destruct u as [usr|]; [|by eexists].
      destruct (Client.stack c) as [|n]; [lia|].
      destruct (Hp flag eq_refl) as (Hvs & Hpre & _).
      destruct (key_specified (Some usr)) eqn:Hk.
      - rewrite (evaluate_no_prerequisites ops factory n flag usr
                   (Client.featureStore c) Hpre Hk).
        destruct (on flag).
        + destruct (evalRules_Ok ops flag
                      (stringifyAttrs usr userAttrsToStringifyForEvaluation)
                      (Client.featureStore c) Hvs) as [o ->].
          by eexists.
        + destruct (getOffResult_Ok flag OFF Hvs) as [o ->]. by eexists.
      - unfold key_specified in Hk. apply negb_false_iff in Hk.
        unfold evaluate. rewrite Hk. by eexists. }
    destruct (negb (Client.initComplete c)); [|done].
    destruct (Store.initialized _); [done|by eexists]. }
  exists (value d). unfold Client.variation. cbn [Client.returned]. rewrite Hd.
  split; [done|]. apply evaluateIfPossible_value in Hd.
  destruct (variationIndex d) as [i|]; [|by left].
  destruct Hd as (flag & Hg & _ & Hv). right. exists flag. split; [done|].
  apply list_elem_of_In. by eapply list_elem_of_lookup_2.
Qed.

Lemma variation_without_prerequisites_witness :
  exists v,
    Client.returned
      (Client.variation no_operators (readyClient (defineFeatures [targetFlag]))
         "feature0" (Some userkeyUser) (Js.Str "default") recording_events)
    = Js.Ok v
    /\ (v = Js.Str "default"
        \/ exists flag,
             Store.get (defineFeatures [targetFlag]) dataKind.features "feature0"
             = Some flag
             /\ In v (default [] (variations flag))).
Proof.
  apply (variation_without_prerequisites no_operators
           (readyClient (defineFeatures [targetFlag])) "feature0" (Some userkeyUser)
           (Js.Str "default") recording_events).
  - simpl. lia.
  - intros flag Hg.
    assert (Some flag = Some targetFlag) as [= ->] by (rewrite <- Hg; reflexivity).
    split; [by eexists|]. split; reflexivity.
Defined.

(** Without [variations] the guarantee is lost: the engine throws, the
    [catch] block returns nothing, and [variation] throws in its turn. *)
Example variation_without_variations :
  let flag := Item (Js.Present "f") 1 false false None (Some 0) None None None None
                   Js.Absent None None in
  Client.returned
    (Client.variation no_operators (readyClient (defineFeatures [flag])) "f"
       (Some someUser) (Js.Str "default") recording_events)
  = Js.Throw (Js.TypeError "Cannot read property 'value' of undefined").
Proof. reflexivity. Qed.

(** X21. Which users [track] and [identify] send an event for. For no
    user, or a user whose key is null or undefined, nothing is sent; a
    user whose key is the empty string is evaluated by the engine, but
    nothing is sent for it either; for every other user each of the two
    sends exactly one event. *)
Theorem tracking_needs_nonblank_key {event}
    (newCustomEvent : string -> user -> option jsval -> option jsval -> event)
    (newIdentifyEvent : user -> event)
    (eventName : string) (u : option user) (data metricValue : option jsval) :
  let sent := (ClientTracking.track newCustomEvent eventName u data metricValue
               ++ ClientTracking.identify newIdentifyEvent u)%list in
  (key_specified u = false -> sent = [])
  /\ (forall usr, u = Some usr -> has_string_key usr EmptyString ->
        key_specified u = true /\ sent = [])
  /\ (forall usr, u = Some usr -> key_specified u = true ->
        ~ has_string_key usr EmptyString ->
        sent = [newCustomEvent eventName usr data metricValue;
                newIdentifyEvent usr]).
Proof.
  unfold ClientTracking.track, ClientTracking.identify,
    ClientTracking.userExistsAndHasKey, key_specified, has_string_key.
  split; [|split].
  - destruct u as [usr|]; [|done]. intros H. apply negb_false_iff in H.
    destruct (props usr !! "key") as [[]|]; done.
  - intros usr -> ->. done.
  - intros usr -> H Hne. apply negb_true_iff in H.
    destruct (props usr !! "key") as [[| | | | |k| |]|]; try done.
    destruct (String.eqb_spec k EmptyString) as [->|]; done.
Qed.

Lemma tracking_needs_nonblank_key_witness :
  key_specified (Some blankKeyUser) = true
  /\ (ClientTracking.track (fun _ _ _ _ => tt) "event" (Some blankKeyUser) None None
      ++ ClientTracking.identify (fun _ => tt) (Some blankKeyUser))%list = [].
Proof.
  apply (proj1 (proj2 (tracking_needs_nonblank_key (fun _ _ _ _ => tt) (fun _ => tt)
                         "event" (Some blankKeyUser) None None)) blankKeyUser).
  - reflexivity.
  - reflexivity.
Defined.

Lemma client_fold_state (invs : list SP.invocation) : forall st,
  Client.is_initComplete (client_fold st invs)
  = Client.is_initComplete st || existsb is_success invs
  /\ Client.is_failure (client_fold st invs)
     = last_failure invs (Client.is_failure st).
Proof.
  induction invs as [|i invs IH]; intros st; simpl.
  - by rewrite orb_false_r.
  - unfold client_fold in *. simpl.
    destruct (IH (Client.on_start_callback st (callback_argument i))) as [-> ->].
    destruct i as [|m s]; simpl.
    + destruct (Client.is_initComplete st) eqn:Ec; simpl; by rewrite ?Ec.
    + done.
Qed.

(** X22. What [waitForInitialization] answers after the update processor
    has invoked the client's callback any number of times: it resolves as
    soon as one invocation was a success, whatever errors came before or
    after; otherwise it is rejected with the most recent error (the
    authentication message for a status 401); and it is pending while the
    callback has not been invoked at all. *)
Theorem waitForInitialization_after (st : Client.init_state)
    (invs : list SP.invocation) :
  ClientTracking.waitForInitialization (client_fold st invs)
  = if Client.is_initComplete st || existsb is_success invs
    then ClientTracking.Resolved
    else match last_failure invs (Client.is_failure st) with
         | Some failure => ClientTracking.Rejected failure
         | None => ClientTracking.Pending
         end.
Proof.
  unfold ClientTracking.waitForInitialization.
  by destruct (client_fold_state invs st) as [-> ->].
Qed.

(* ===================================================================== *)
(** ** The streaming processor: paths, bad events, initialisation         *)
(* ===================================================================== *)

Lemma string_prefix_app (p s : string) : String.prefix p (p ++ s) = true.
Proof.
  induction p as [|c p IH]; simpl; [by destruct s|].
  destruct (ascii_dec c c) as [_|Hne]; [exact IH|done].
Qed.

Lemma substring_all (s : string) (m : nat) :
  (String.length s <= m)%nat -> substring 0 m s = s.
Proof.
  revert m. induction s as [|c s IH]; intros m Hm; simpl; [by destruct m|].
  destruct m as [|m]; simpl in Hm; [lia|]. simpl. rewrite IH; [done|lia].
Qed.

Lemma substring_after_prefix (p s : string) (m : nat) :
  (String.length s <= m)%nat -> substring (String.length p) m (p ++ s) = s.
Proof.
  intros Hm. induction p as [|c p IH]; simpl; [by apply substring_all|exact IH].
Qed.

Lemma string_length_app (p s : string) :
  String.length (p ++ s) = (String.length p + String.length s)%nat.
Proof. induction p as [|c p IH]; simpl; [done|by rewrite IH]. Qed.

Lemma getKeyFromPath_app (k : kind) (name : string) :
  SP.getKeyFromPath k (dataKind.streamApiPath k ++ name) = Some name.
Proof.
  unfold SP.getKeyFromPath. rewrite string_prefix_app. f_equal.
  apply substring_after_prefix. rewrite string_length_app. lia.
Qed.

Lemma route_flags (name : string) :
  SP.route dataKind.all_kinds ("/flags/" ++ name) = Some (dataKind.features, name).
Proof.
  unfold dataKind.all_kinds. cbn [SP.route].
  by rewrite (getKeyFromPath_app dataKind.features name
              : SP.getKeyFromPath dataKind.features ("/flags/" ++ name) = Some name).
Qed.

Lemma route_segments (name : string) :
  SP.route dataKind.all_kinds ("/segments/" ++ name)
  = Some (dataKind.segments, name).
Proof.
  unfold dataKind.all_kinds. cbn [SP.route].
  assert (SP.getKeyFromPath dataKind.features ("/segments/" ++ name) = None)
    as -> by reflexivity.
  by rewrite (getKeyFromPath_app dataKind.segments name
              : SP.getKeyFromPath dataKind.segments ("/segments/" ++ name)
                = Some name).
Qed.

(** X23. Paths and keys. The path of a kind followed by a key gives back
    the key, for every kind and every key (the empty key included); among
    the kinds of [dataKind], a path under [/flags/] is routed to the
    features and a path under [/segments/] to the segments, each with the
    key that follows the prefix. *)
Theorem getKeyFromPath_round_trip (k : kind) (name : string) :
  SP.getKeyFromPath k (dataKind.streamApiPath k ++ name) = Some name
  /\ SP.route dataKind.all_kinds ("/flags/" ++ name)
     = Some (dataKind.features, name)
  /\ SP.route dataKind.all_kinds ("/segments/" ++ name)
     = Some (dataKind.segments, name).
Proof.
  split; [apply getKeyFromPath_app|]. split; [apply route_flags|apply route_segments].
Qed.

(** X24. A patch is filed under the key of the item it carries: the key
    in its path only selects the kind. Two patches of the same kind with
    the same item and different keys in their paths have the same effect,
    which is that of upserting the item. *)
Theorem patch_ignores_path_key (recoverable : Z -> bool) (st : SP.t) (k : kind)
    (name name' : string) (it : item) :
  In k dataKind.all_kinds ->
  SP.handle recoverable st
    (SP.patch (SP.Parsed (dataKind.streamApiPath k ++ name, it)))
  = SP.handle recoverable st
      (SP.patch (SP.Parsed (dataKind.streamApiPath k ++ name', it)))
  /\ SP.featureStore
       (SP.handle recoverable st
          (SP.patch (SP.Parsed (dataKind.streamApiPath k ++ name, it))))
     = Store.upsert (SP.featureStore st) k it.
Proof.
  intros [<-|[<-|[]]]; cbn [SP.handle].
  - change (dataKind.streamApiPath dataKind.features) with "/flags/".
    by rewrite (route_flags name), (route_flags name').
  - change (dataKind.streamApiPath dataKind.segments) with "/segments/".
    by rewrite (route_segments name), (route_segments name').
Qed.

Lemma patch_ignores_path_key_witness :
  SP.handle isHttpErrorRecoverable (SP.start initedStore)
    (SP.patch (SP.Parsed ("/flags/" ++ "foo", versioned "bar" 11)))
  = SP.handle isHttpErrorRecoverable (SP.start initedStore)
      (SP.patch (SP.Parsed ("/flags/" ++ "bar", versioned "bar" 11)))
  /\ SP.featureStore
       (SP.handle isHttpErrorRecoverable (SP.start initedStore)
          (SP.patch (SP.Parsed ("/flags/" ++ "foo", versioned "bar" 11))))
     = Store.upsert initedStore dataKind.features (versioned "bar" 11).
Proof.
  apply (patch_ignores_path_key isHttpErrorRecoverable (SP.start initedStore)
           dataKind.features "foo" "bar" (versioned "bar" 11)).
  left. reflexivity.
Defined.

Lemma handle_store_connection (recoverable : Z -> bool) (st st' : SP.t) (i : SP.input) :
  SP.featureStore st = SP.featureStore st' ->
  SP.shut_down st = SP.shut_down st' ->
  SP.featureStore (SP.handle recoverable st i)
  = SP.featureStore (SP.handle recoverable st' i)
  /\ SP.shut_down (SP.handle recoverable st i)
     = SP.shut_down (SP.handle recoverable st' i).
Proof.
  intros Hs Hd.
  destruct i as [[| |a]|[| |[p d]]|[| |[p v]]|[m s|a]|[p|] r|m [code|]];
    unfold SP.handle;
    try (destruct (SP.route dataKind.all_kinds p) as [[k name]|]);
    try destruct r;
    unfold SP.handleError;
    try destruct (negb (code =? 0) && negb (recoverable code));
    cbn [SP.featureStore SP.shut_down SP.call_cb SP.with_store SP.reportJsonError];
    by rewrite ?Hs, ?Hd.
Qed.

Lemma handle_bad_event (recoverable : Z -> bool) (st : SP.t) (i : SP.input) :
  is_bad_event i = true ->
  SP.featureStore (SP.handle recoverable st i) = SP.featureStore st
  /\ SP.shut_down (SP.handle recoverable st i) = SP.shut_down st.
Proof.
  by destruct i as [[| |a]|[| |[p d]]|[| |[p v]]|[m s|a]|[p|] r|m [code|]].
Qed.

Lemma run_store_connection (recoverable : Z -> bool) (inputs : list SP.input) :
  forall st st' : SP.t,
  SP.featureStore st = SP.featureStore st' ->
  SP.shut_down st = SP.shut_down st' ->
  SP.featureStore (SP.run recoverable st inputs)
  = SP.featureStore (SP.run recoverable st' inputs)
  /\ SP.shut_down (SP.run recoverable st inputs)
     = SP.shut_down (SP.run recoverable st' inputs).
Proof.
  induction inputs as [|i rest IH]; intros st st' Hs Hd; simpl; [done|].
  destruct (handle_store_connection recoverable st st' i Hs Hd) as [Hs' Hd'].
  rewrite <- Hd. destruct (SP.shut_down st) eqn:E; [by rewrite ?E|]. by apply IH.
Qed.

(** X25. Events without data, or with data that is not JSON, have no
    effect on the store or on the connection, wherever they occur in the
    stream: the store and the connection after a run are those of the run
    without these events. *)
Theorem run_ignores_bad_events (recoverable : Z -> bool) (inputs : list SP.input)
    (st : SP.t) :
  let kept := List.filter (fun i => negb (is_bad_event i)) inputs in
  SP.featureStore (SP.run recoverable st inputs)
  = SP.featureStore (SP.run recoverable st kept)
  /\ SP.shut_down (SP.run recoverable st inputs)
     = SP.shut_down (SP.run recoverable st kept).
Proof.
  revert st. induction inputs as [|i rest IH]; intros st; [done|].
  cbn [List.filter]. destruct (is_bad_event i) eqn:Eb; cbn [negb SP.run].
  - destruct (SP.shut_down st) eqn:E.
    + by rewrite run_shut_down.
    + destruct (handle_bad_event recoverable st i Eb) as [Hs Hd].
      destruct (run_store_connection recoverable rest _ st Hs Hd) as [-> ->].
      apply IH.
  - destruct (SP.shut_down st); [done|]. apply IH.
Qed.










(** A promise asked for at start-up is rejected by an error that comes
    before the first success, although the data is applied afterwards; the
    same promise asked for after the run resolves. *)
Example promise_rejected_before_ready :
  let invs := SP.invocations
                (SP.run isHttpErrorRecoverable (SP.start Store.new)
                        [SP.put SP.Malformed; emptyPut]) in
  promise_taken [] invs
  = ClientTracking.Rejected "Malformed JSON data in event stream"
  /\ promise_taken invs [] = ClientTracking.Resolved.
Proof. split; reflexivity. Qed.
